(** * The continuous audio buffer (useAudioBuffer) and the sound trigger loop

    A shallow embedding of [src/hooks/useAudioBuffer.ts] and of the sound
    detection loop of the Dwight component.

    Conventions of the embedding.
    - Times are the results of [Date.now()]: integers, in milliseconds.
      Every function that calls [Date.now()] takes the value read as an
      argument.
    - [bufferRef.current] is a mutable cell shared by every callback: it is a
      field of the hook instance [Hook].
    - [setState(prev => ...)] updates the latest React state: the field
      [current] of [Hook].
    - A callback reads [state.x] from the [state] constant of the render
      that created it.  Nothing ever assigns to that constant, and every
      update builds a new object ([{...prev, ...}]), so a callback that is
      installed once (the [ondataavailable] handler, the [setInterval]
      callback of demo mode, the [requestAnimationFrame] loop) keeps reading
      the values of the render that created it.  Every callback therefore
      takes that render's state as its first argument, named [state] as in
      the source, next to the hook instance it acts on.
    - Effects run when the render that follows a state update commits:
      [step] runs them before the next event reaches the hook.  The hook
      has two.  The one registered with [[stopBuffering]] as dependencies
      only returns a cleanup, so whenever [stopBuffering] is re-created,
      that is whenever [state.isBuffering] changes, React runs the
      [stopBuffering] of the previous render.  The one registered with
      [[bufferSize]] writes the argument of the hook into the state when
      that argument changes; the component passes a constant, so it runs
      at mount only, where it writes the value the state already has. *)

From Stdlib Require Import ZArith QArith Qminmax List Bool Lia String Sorted.
From Stdlib Require Import Strings.Byte.
From Stdlib Require Import Qround Ascii Lqa.
Import ListNotations.
Local Open Scope Z_scope.

(** ** Data model *)

(** A [Blob]: its bytes and its MIME type. *)
Record Blob := mkBlob { blob_bytes : list byte; blob_type : string }.

(** [blob.size] *)
Definition size (b : Blob) : Z := Z.of_nat (List.length (blob_bytes b)).

(** [new Blob(parts, { type })]: the parts' bytes, one after the other. *)
Definition new_Blob (parts : list Blob) (type : string) : Blob :=
  mkBlob (List.concat (map blob_bytes parts)) type.

Definition webm_opus : string := "audio/webm;codecs=opus"%string.

(** An element of [bufferRef.current]: [{ blob, timestamp }]. *)
Record Chunk := mkChunk { blob : Blob; timestamp : Z }.

(** [interface AudioBufferState] *)
Record AudioBufferState := mkState {
  isBuffering : bool;
  bufferSize : Z;                 (* in seconds (30-3000) *)
  currentBuffer : list Blob;
  bufferStartTime : Z;
  isTriggered : bool;
  triggerTime : Z;
  isRemembering : bool;           (* DVR-style continuous recording *)
  rememberingStartTime : Z;
  recordedChunks : list Blob      (* chunks saved during remembering *)
}.

(** The initial state of [useAudioBuffer(bufferSize)]. *)
Definition initialState (bufferSize0 : Z) : AudioBufferState :=
  {| isBuffering := false; bufferSize := bufferSize0; currentBuffer := [];
     bufferStartTime := 0; isTriggered := false; triggerTime := 0;
     isRemembering := false; rememberingStartTime := 0;
     recordedChunks := [] |}.

(** What [intervalRef.current] runs: the [requestData] timer of a real
    recorder, or the demo generator, closed over the state of the render
    that started it. *)
Inductive Interval :=
| RequestDataTimer
| DemoTimer (closure : AudioBufferState).

(** [mediaRecorder.state].  A recorder that is stopped, or whose tracks
    have all ended, fires one last [dataavailable] event with what it has
    gathered since the previous one (possibly nothing): [stopping] is a
    recorder that no longer records and whose last event is still to be
    delivered, [inactive] one that has delivered it. *)
Inductive RecordingState := recording | stopping | inactive.

(** A [MediaRecorder]: the state its [ondataavailable] handler is closed
    over, and the state of the recorder. *)
Record MediaRecorder := mkMediaRecorder {
  handlerState : AudioBufferState;
  recorderState : RecordingState
}.

(** One instance of the hook: the latest React state, the shared buffer,
    the recorder [mediaRecorderRef.current] designates, and the interval
    [intervalRef.current] designates while it is live ([clearInterval]
    leaves the identifier in the ref, and clearing it again does nothing:
    a cleared interval is [None] here). *)
Record Hook := mkHook {
  current : AudioBufferState;
  bufferRef : list Chunk;
  mediaRecorderRef : option MediaRecorder;
  intervalRef : option Interval
}.

Definition useAudioBuffer (bufferSize0 : Z) : Hook :=
  {| current := initialState bufferSize0; bufferRef := [];
     mediaRecorderRef := None; intervalRef := None |}.

(** A JavaScript error object: [error.name] and [error.message]. *)
Record JsError := mkError { name : string; message : string }.

(** [new Error(message)] *)
Definition new_Error (msg : string) : JsError := mkError "Error" msg.

(** Results of calls that may throw, and of promises. *)
Inductive Completion (A : Type) :=
| Normal (value : A)
| Throw (error : JsError).
Arguments Normal {A} value.
Arguments Throw {A} error.

Inductive Promise (A : Type) :=
| Resolved (value : A)
| Rejected (reason : JsError).
Arguments Resolved {A} value.
Arguments Rejected {A} reason.

Definition fails {A} (c : Completion A) : Prop := exists e, c = Throw e.
Definition rejects {A} (p : Promise A) : Prop := exists e, p = Rejected e.

(** ** State updates ([{ ...prev, field: value }]) *)

Definition with_recordedChunks (v : list Blob) (prev : AudioBufferState) :=
  {| isBuffering := isBuffering prev; bufferSize := bufferSize prev;
     currentBuffer := currentBuffer prev;
     bufferStartTime := bufferStartTime prev;
     isTriggered := isTriggered prev; triggerTime := triggerTime prev;
     isRemembering := isRemembering prev;
     rememberingStartTime := rememberingStartTime prev;
     recordedChunks := v |}.

Definition with_currentBuffer (v : list Blob) (prev : AudioBufferState) :=
  {| isBuffering := isBuffering prev; bufferSize := bufferSize prev;
     currentBuffer := v;
     bufferStartTime := bufferStartTime prev;
     isTriggered := isTriggered prev; triggerTime := triggerTime prev;
     isRemembering := isRemembering prev;
     rememberingStartTime := rememberingStartTime prev;
     recordedChunks := recordedChunks prev |}.

Definition with_bufferSize (v : Z) (prev : AudioBufferState) :=
  {| isBuffering := isBuffering prev; bufferSize := v;
     currentBuffer := currentBuffer prev;
     bufferStartTime := bufferStartTime prev;
     isTriggered := isTriggered prev; triggerTime := triggerTime prev;
     isRemembering := isRemembering prev;
     rememberingStartTime := rememberingStartTime prev;
     recordedChunks := recordedChunks prev |}.

Definition with_buffering (b : bool) (start : Z) (prev : AudioBufferState) :=
  {| isBuffering := b; bufferSize := bufferSize prev;
     currentBuffer := currentBuffer prev;
     bufferStartTime := start;
     isTriggered := isTriggered prev; triggerTime := triggerTime prev;
     isRemembering := isRemembering prev;
     rememberingStartTime := rememberingStartTime prev;
     recordedChunks := recordedChunks prev |}.

Definition with_triggered (t : Z) (prev : AudioBufferState) :=
  {| isBuffering := isBuffering prev; bufferSize := bufferSize prev;
     currentBuffer := currentBuffer prev;
     bufferStartTime := bufferStartTime prev;
     isTriggered := true; triggerTime := t;
     isRemembering := isRemembering prev;
     rememberingStartTime := rememberingStartTime prev;
     recordedChunks := recordedChunks prev |}.

Definition with_remembering_started (t start : Z) (chunks : list Blob)
    (prev : AudioBufferState) :=
  {| isBuffering := isBuffering prev; bufferSize := bufferSize prev;
     currentBuffer := currentBuffer prev;
     bufferStartTime := bufferStartTime prev;
     isTriggered := true; triggerTime := t;
     isRemembering := true;
     rememberingStartTime := start;
     recordedChunks := chunks |}.

Definition with_remembering_stopped (prev : AudioBufferState) :=
  {| isBuffering := isBuffering prev; bufferSize := bufferSize prev;
     currentBuffer := currentBuffer prev;
     bufferStartTime := bufferStartTime prev;
     isTriggered := isTriggered prev; triggerTime := triggerTime prev;
     isRemembering := false;
     rememberingStartTime := rememberingStartTime prev;
     recordedChunks := [] |}.

Definition setState (f : AudioBufferState -> AudioBufferState) (h : Hook) :=
  {| current := f (current h); bufferRef := bufferRef h;
     mediaRecorderRef := mediaRecorderRef h; intervalRef := intervalRef h |}.

Definition set_bufferRef (l : list Chunk) (h : Hook) :=
  {| current := current h; bufferRef := l;
     mediaRecorderRef := mediaRecorderRef h; intervalRef := intervalRef h |}.

(** ** Ingestion *)

(** [chunk => chunk.timestamp > cutoffTime] *)
Definition newer_than (cutoffTime : Z) (chunk : Chunk) : bool :=
  cutoffTime <? timestamp chunk.

(** The body shared, word for word, by the two ingestion callbacks: push the
    chunk, append it to [recordedChunks] when the callback's own
    [state.isRemembering] is set, drop what is not newer than
    [timestamp - state.bufferSize * 1000], publish [currentBuffer]. *)
Definition ingest (state : AudioBufferState) (data : Blob) (now : Z)
    (h : Hook) : Hook :=
  let timestamp := now in
  let h1 := set_bufferRef (bufferRef h ++ [mkChunk data timestamp]) h in
  let h2 := if isRemembering state
            then setState (fun prev =>
                   with_recordedChunks (recordedChunks prev ++ [data]) prev) h1
            else h1 in
  let cutoffTime := timestamp - bufferSize state * 1000 in
  let h3 := set_bufferRef (filter (newer_than cutoffTime) (bufferRef h2)) h2 in
  setState (fun prev => with_currentBuffer (map blob (bufferRef h3)) prev) h3.

(** [mediaRecorder.ondataavailable = (event) => { if (event.data.size > 0) ... }] *)
Definition ondataavailable (state : AudioBufferState) (data : Blob) (now : Z)
    (h : Hook) : Hook :=
  if 0 <? size data then ingest state data now h else h.

(** The [setInterval] callback of [startDemoMode].  [buffer] is the content
    of the [Float32Array] of 44100 samples it fills with a randomised sine
    wave (176400 bytes); the values of the samples are not modelled. *)
Definition demoTick (state : AudioBufferState) (buffer : list byte) (now : Z)
    (h : Hook) : Hook :=
  let demoBlob := mkBlob buffer webm_opus in
  ingest state demoBlob now h.

(** ** Starting the buffer *)

(** [startDemoMode]: mark the hook as buffering and start the generator.
    Its interval callback is closed over this render's [state]. *)
Definition startDemoMode (state : AudioBufferState) (now : Z) (h : Hook)
    : Completion Hook :=
  let h1 := setState (fun prev => with_buffering true now prev) h in
  Normal {| current := current h1; bufferRef := bufferRef h1;
            mediaRecorderRef := mediaRecorderRef h1;
            intervalRef := Some (DemoTimer state) |}.

(** What the browser answers to [startBuffering]: the permission state
    returned by [checkMicrophonePermission], the outcome of
    [getUserMedia] and of [new MediaRecorder]. *)
Inductive PermissionState := granted | denied | prompt | unknown.

Record Browser := mkBrowser {
  permissionState : PermissionState;
  getUserMedia : Completion unit;
  newMediaRecorder : Completion unit
}.

Definition is_denied (p : PermissionState) : bool :=
  match p with denied => true | _ => false end.

(** The [try] block of [startBuffering]. *)
Definition acquire (state : AudioBufferState) (browser : Browser) (now : Z)
    (h : Hook) : Completion Hook :=
  if is_denied (permissionState browser) then
    Throw (new_Error
      "Microphone access denied. Please enable microphone permissions in your browser settings and refresh the page.")
  else
    match getUserMedia browser with
    | Throw error => Throw error
    | Normal _ =>
      match newMediaRecorder browser with
      | Throw error => Throw error
      | Normal _ =>
        let h1 := {| current := current h; bufferRef := bufferRef h;
                     mediaRecorderRef :=
                       Some {| handlerState := state;
                               recorderState := recording |};
                     intervalRef := Some RequestDataTimer |} in
        Normal (setState (fun prev => with_buffering true now prev) h1)
      end
    end.

(** The message built in the [catch] block. *)
Definition errorMessage (error : JsError) : string :=
  ("Failed to start audio buffering: " ++
   (if String.eqb (name error) "NotAllowedError" then
      "Microphone access denied. Starting demo mode instead."
    else if String.eqb (name error) "NotFoundError" then
      "No microphone found. Starting demo mode instead."
    else if String.eqb (name error) "NotReadableError" then
      "Microphone is already in use by another application. Starting demo mode instead."
    else
      (if String.eqb (message error) "" then "Unknown error"
       else message error) ++ " Starting demo mode instead."))%string.

(** [startBuffering]: whatever the [try] block throws is caught, and the
    hook falls back to demo mode; only a failure of [startDemoMode] itself
    is thrown again. *)
Definition startBuffering (state : AudioBufferState) (browser : Browser)
    (now : Z) (h : Hook) : Completion Hook :=
  match acquire state browser now h with
  | Normal h' => Normal h'
  | Throw error =>
    match startDemoMode state now h with
    | Normal h' => Normal h'
    | Throw demoError => Throw (new_Error (errorMessage error))
    end
  end.

(** ** Extraction *)

(** [chunk => chunk.timestamp >= bufferStartTime && chunk.timestamp <= triggerTime] *)
Definition in_range (from to : Z) (chunk : Chunk) : bool :=
  (from <=? timestamp chunk) && (timestamp chunk <=? to).

Definition relevantChunks (state : AudioBufferState) (triggerTime : Z)
    (h : Hook) : list Chunk :=
  let bufferStartTime := triggerTime - bufferSize state * 1000 in
  filter (in_range bufferStartTime triggerTime) (bufferRef h).

(** [triggerRecording]: the promise it returns and the hook afterwards.
    The executor only ever calls [resolve]. *)
Definition triggerRecording (state : AudioBufferState) (now : Z) (h : Hook)
    : Promise Blob * Hook :=
  let triggerTime := now in
  let audioBlob :=
    new_Blob (map blob (relevantChunks state triggerTime h)) webm_opus in
  (Resolved audioBlob, setState (fun prev => with_triggered triggerTime prev) h).

(** ** Remembering *)

(** [chunk => chunk.timestamp >= bufferStartTime] *)
Definition not_before (from : Z) (chunk : Chunk) : bool :=
  from <=? timestamp chunk.

Definition startRemembering (state : AudioBufferState) (now : Z) (h : Hook)
    : Completion (list Blob * Hook) :=
  let triggerTime := now in
  let bufferStartTime := triggerTime - bufferSize state * 1000 in
  let bufferChunks := filter (not_before bufferStartTime) (bufferRef h) in
  Normal (map blob bufferChunks,
          setState (fun prev =>
            with_remembering_started triggerTime bufferStartTime
              (map blob bufferChunks) prev) h).

Definition stopRemembering (state : AudioBufferState) (h : Hook)
    : Completion (Blob * Hook) :=
  let finalBlob := new_Blob (recordedChunks state) webm_opus in
  Normal (finalBlob, setState with_remembering_stopped h).

(** ** Resizing and fill *)

(** [Math.max(30, Math.min(3000, newSize))] *)
Definition clampedSize (newSize : Z) : Z := Z.max 30 (Z.min 3000 newSize).

Definition updateBufferSize (newSize : Z) (now : Z) (h : Hook) : Hook :=
  let h1 := setState (fun prev => with_bufferSize (clampedSize newSize) prev) h in
  let cutoffTime := now - clampedSize newSize * 1000 in
  set_bufferRef (filter (newer_than cutoffTime) (bufferRef h1)) h1.

(** [getBufferDuration], in seconds. *)
Definition getBufferDuration (h : Hook) : Q :=
  match bufferRef h with
  | [] => 0%Q
  | first :: _ =>
    let oldest := timestamp first in
    let newest := timestamp (last (bufferRef h) first) in
    (inject_Z (newest - oldest) / 1000)%Q
  end.

(** The time from the oldest to the newest chunk, in milliseconds:
    [newest - oldest] in [getBufferDuration]. *)
Definition span (l : list Chunk) : Z :=
  match l with
  | [] => 0
  | first :: _ => timestamp (last l first) - timestamp first
  end.

(** [getBufferFill]: a percentage.  Numbers are exact rationals here;
    [bufferSize] is never 0 where the fill is used. *)
Definition getBufferFill (state : AudioBufferState) (h : Hook) : Q :=
  Qmin 100 (getBufferDuration h / inject_Z (bufferSize state) * 100)%Q.

(** ** Stopping the buffer, and the effects of the hook *)

Definition with_isBuffering (b : bool) (prev : AudioBufferState) :=
  {| isBuffering := b; bufferSize := bufferSize prev;
     currentBuffer := currentBuffer prev;
     bufferStartTime := bufferStartTime prev;
     isTriggered := isTriggered prev; triggerTime := triggerTime prev;
     isRemembering := isRemembering prev;
     rememberingStartTime := rememberingStartTime prev;
     recordedChunks := recordedChunks prev |}.

Definition set_mediaRecorderRef (r : option MediaRecorder) (h : Hook) :=
  {| current := current h; bufferRef := bufferRef h;
     mediaRecorderRef := r; intervalRef := intervalRef h |}.

(** [clearInterval(intervalRef.current)] *)
Definition clearInterval (h : Hook) :=
  {| current := current h; bufferRef := bufferRef h;
     mediaRecorderRef := mediaRecorderRef h; intervalRef := None |}.

(** The recorder stops recording: by [mediaRecorder.stop()], or because
    the tracks it records have ended.  Its last [dataavailable] event is
    then to come.  On a recorder that does not record any more, neither
    changes anything ([stop()] is taken not to throw there). *)
Definition stopRecorder (h : Hook) : Hook :=
  match mediaRecorderRef h with
  | Some r =>
    match recorderState r with
    | recording =>
      set_mediaRecorderRef
        (Some {| handlerState := handlerState r; recorderState := stopping |})
        h
    | _ => h
    end
  | None => h
  end.

(** [stopBuffering]:
    [if (mediaRecorderRef.current && state.isBuffering) mediaRecorderRef.current.stop()],
    then the interval is cleared, then the tracks of [streamRef.current]
    are stopped, then [isBuffering] is reset.  [streamRef.current] is the
    stream of the recorder while that one records (both are set by the
    same [startBuffering]), so stopping the tracks ends the recording
    too, whatever [state.isBuffering] is. *)
Definition stopBuffering (state : AudioBufferState) (h : Hook) : Hook :=
  let h1 := if isBuffering state then stopRecorder h else h in
  let h2 := clearInterval h1 in
  let h3 := stopRecorder h2 in
  setState (fun prev => with_isBuffering false prev) h3.

(** [useEffect(() => { return () => { stopBuffering(); }; }, [stopBuffering])].
    [stopBuffering] is re-created when [state.isBuffering] changes
    ([useCallback(..., [state.isBuffering])]); React then runs the cleanup
    the previous render registered, which calls the [stopBuffering] of
    that render.  [rendered] is the state of that previous render, [h] the
    hook with the state now being rendered. *)
Definition cleanupEffect (rendered : AudioBufferState) (h : Hook) : Hook :=
  if Bool.eqb (isBuffering rendered) (isBuffering (current h)) then h
  else stopBuffering rendered h.

(** The renders that follow an event.  [rendered] is the state of the last
    render before the event, [h] the hook after it.  If the event changed
    [isBuffering], the render of the new state runs the cleanup of
    [rendered]; that cleanup resets [isBuffering], and if that is a change
    again, the next render runs the cleanup registered meanwhile, by the
    render of [current h].  After that [isBuffering] is reset and stays
    so: no further cleanup runs. *)
Definition rerender (rendered : AudioBufferState) (h : Hook) : Hook :=
  cleanupEffect (current h) (cleanupEffect rendered h).

(** [useEffect(() => { setState(prev => ({ ...prev, bufferSize })); }, [bufferSize])]:
    it runs at mount and when the argument of the hook changes. *)
Definition bufferSizeEffect (bufferSize0 : Z) (h : Hook) : Hook :=
  setState (fun prev => with_bufferSize bufferSize0 prev) h.

(** ** The mounted hook driven by its environment

    What can happen to a mounted hook: the recorder delivers data, the
    interval fires, or the component calls one of the returned callbacks.
    The component calls the callbacks of its latest render, whose [state]
    is the latest React state; the recorder and the interval run the
    closures that were installed when buffering started.  The argument of
    the hook is the same at every render, as in the component
    ([useAudioBuffer(30)]). *)
Inductive Event :=
| DataAvailable (data : Blob) (now : Z)
| IntervalTick (buffer : list byte) (now : Z)
| CallStartBuffering (browser : Browser) (now : Z)
| CallStopBuffering
| CallStartRemembering (now : Z)
| CallStopRemembering
| CallUpdateBufferSize (newSize : Z) (now : Z)
| CallTriggerRecording (now : Z).

Definition completed {A} (c : Completion (A * Hook)) (h : Hook) : Hook :=
  match c with Normal (_, h') => h' | Throw _ => h end.

(** What the event itself does.  A recorder delivers data when it is
    asked to ([requestData()], called by its timer while it records) and
    once more when it stops; the demo generator delivers while its
    interval is live. *)
Definition handle (h : Hook) (e : Event) : Hook :=
  match e with
  | DataAvailable data now =>
    match mediaRecorderRef h with
    | Some r =>
      match recorderState r with
      | recording =>
        match intervalRef h with
        | Some RequestDataTimer => ondataavailable (handlerState r) data now h
        | _ => h
        end
      | stopping =>
        set_mediaRecorderRef
          (Some {| handlerState := handlerState r; recorderState := inactive |})
          (ondataavailable (handlerState r) data now h)
      | inactive => h
      end
    | None => h
    end
  | IntervalTick buffer now =>
    match intervalRef h with
    | Some (DemoTimer closure) => demoTick closure buffer now h
    | _ => h
    end
  | CallStartBuffering browser now =>
    match startBuffering (current h) browser now h with
    | Normal h' => h'
    | Throw _ => h
    end
  | CallStopBuffering => stopBuffering (current h) h
  | CallStartRemembering now => completed (startRemembering (current h) now h) h
  | CallStopRemembering => completed (stopRemembering (current h) h) h
  | CallUpdateBufferSize newSize now => updateBufferSize newSize now h
  | CallTriggerRecording now => snd (triggerRecording (current h) now h)
  end.

(** One event, and the renders and effects that follow it. *)
Definition step (h : Hook) (e : Event) : Hook :=
  rerender (current h) (handle h e).

Definition run (events : list Event) (h : Hook) : Hook :=
  fold_left step events h.

(** A working microphone. *)
Definition microphone : Browser :=
  {| permissionState := granted; getUserMedia := Normal tt;
     newMediaRecorder := Normal tt |}.

(** One-byte payloads, told apart by their byte. *)
Definition payload (n : nat) : Blob :=
  mkBlob (match Byte.of_nat n with Some b => [b] | None => [] end) webm_opus.

(** One chunk a second: the recorder's handler of a render whose state is
    [state] receives the payloads [from], [from + 1], ..., [count] of
    them, chunk [i] at [i * 1000] ms. *)
Definition oneChunkASecond (state : AudioBufferState) (from count : nat)
    (h : Hook) : Hook :=
  fold_left (fun h i => ondataavailable state (payload i) (Z.of_nat i * 1000) h)
            (seq from count) h.

(** ** The sound trigger loop of the component *)

(** The [soundDetection] state. *)
Record SoundDetection := mkSoundDetection {
  isActive : bool;
  threshold : Q;        (* volume threshold for trigger (0-100) *)
  lastTrigger : Z;
  cooldown : Z          (* cooldown between triggers, in ms *)
}.


(** What the loop acts on: the latest [soundDetection] state, the
    [nonverbal] log (volume and time of each entry) and the times at which
    [handleManualRecord] was called. *)
Record Detector := mkDetector {
  soundDetection_current : SoundDetection;
  nonverbal : list (Q * Z);
  manualRecords : list Z
}.

Definition with_lastTrigger (now : Z) (prev : SoundDetection) :=
  {| isActive := isActive prev; threshold := threshold prev;
     lastTrigger := now; cooldown := cooldown prev |}.

Definition setSoundDetection (f : SoundDetection -> SoundDetection)
    (d : Detector) : Detector :=
  {| soundDetection_current := f (soundDetection_current d);
     nonverbal := nonverbal d; manualRecords := manualRecords d |}.

(** [a > b] on numbers. *)
Definition Qgtb (a b : Q) : bool := negb (Qle_bool a b).

(** The average of the frequency bins, as a percentage of 255 (an exact
    rational here). *)
Definition volumePercent (dataArray : list Z) : Q :=
  let bufferLength := Z.of_nat (List.length dataArray) in
  let average :=
    (inject_Z (fold_left Z.add dataArray 0%Z) / inject_Z bufferLength)%Q in
  (average / 255 * 100)%Q.

(** The test of [detectSound]:
    [volumePercent > soundDetection.threshold &&
     now - soundDetection.lastTrigger > soundDetection.cooldown]. *)
Definition fired (soundDetection : SoundDetection) (volume : Q) (now : Z)
    : bool :=
  Qgtb volume (threshold soundDetection) &&
  (cooldown soundDetection <? now - lastTrigger soundDetection).

(** One run of the body of [detectSound], past its first test.
    [soundDetection], [soundTriggers] and [buffering] (the
    [audioBuffer.isBuffering] the loop reads) are those of the render that
    created the loop. *)
Definition detectSound_frame (soundDetection : SoundDetection)
    (soundTriggers : list string) (buffering : bool)
    (dataArray : list Z) (now : Z) (d : Detector) : Detector :=
  let volume := volumePercent dataArray in
  if fired soundDetection volume now then
    let d1 := setSoundDetection (fun prev => with_lastTrigger now prev) d in
    let detectedSounds :=
      filter (fun _ => Qgtb volume (threshold soundDetection)) soundTriggers in
    if (0 <? Z.of_nat (List.length detectedSounds)) then
      let d2 := {| soundDetection_current := soundDetection_current d1;
                   nonverbal := (volume, now) :: firstn 9 (nonverbal d1);
                   manualRecords := manualRecords d1 |} in
      if buffering then
        {| soundDetection_current := soundDetection_current d2;
           nonverbal := nonverbal d2;
           manualRecords := now :: manualRecords d2 |}
      else d2
    else d1
  else d.

(** [detectSound] re-arms itself with [requestAnimationFrame(detectSound)]:
    the same closure, hence the same [soundDetection], runs at every frame.
    It returns without re-arming when [soundDetection.isActive] is off.
    A frame is what the analyser holds and what [Date.now()] reads. *)
Fixpoint detectSound (soundDetection : SoundDetection)
    (soundTriggers : list string) (buffering : bool)
    (frames : list (list Z * Z)) (d : Detector) : Detector :=
  match frames with
  | [] => d
  | (dataArray, now) :: rest =>
    if negb (isActive soundDetection) then d
    else detectSound soundDetection soundTriggers buffering rest
           (detectSound_frame soundDetection soundTriggers buffering
              dataArray now d)
  end.

(** [startSoundDetectionLoop]: nothing without an analyser. *)
Definition startSoundDetectionLoop (soundDetection : SoundDetection)
    (soundTriggers : list string) (buffering : bool) (analyser : bool)
    (frames : list (list Z * Z)) (d : Detector) : Detector :=
  if negb analyser then d
  else detectSound soundDetection soundTriggers buffering frames d.




(** ** Scenarios *)

(** 128 frequency bins averaging to 80 % and to 90 % of full scale. *)
Definition level80 : list Z := repeat 204 128.
Definition level90 : list Z := repeat 229 64 ++ repeat 230 64.

Definition activeDetection : SoundDetection :=
  {| isActive := true; threshold := 50; lastTrigger := 0; cooldown := 2000 |}.

Definition idleDetector (sd : SoundDetection) : Detector :=
  {| soundDetection_current := sd; nonverbal := []; manualRecords := [] |}.

Definition defaultSoundTriggers : list string :=
  ["baby crying"%string; "gunshots"%string].

(** A loop started at clock time [t0] that hears 80 %, then 90 % one second
    later, then 90 % 2001 ms after the first. *)
Definition threeLoudFrames (t0 : Z) : list (list Z * Z) :=
  [(level80, t0); (level90, t0 + 1000); (level90, t0 + 2001)].

Definition afterThreeLoudFrames (t0 : Z) : Detector :=
  startSoundDetectionLoop activeDetection defaultSoundTriggers true true
    (threeLoudFrames t0) (idleDetector activeDetection).

(** A mounted hook with a 30 s window on which [startBuffering] was called
    once, with a working microphone. *)
Definition buffering30 : Hook :=
  run [CallStartBuffering microphone 0] (useAudioBuffer 30).

(** Forty-five ingestions, one a second, by the handler of a render with a
    30 s window. *)
Definition after45seconds : Hook :=
  oneChunkASecond (initialState 30) 1 45 (useAudioBuffer 30).

(** Ten seconds of audio in a 30 s window. *)
Definition tenSeconds : Hook :=
  oneChunkASecond (initialState 30) 1 10 (useAudioBuffer 30).

(** Ten seconds of audio, then remembering starts. *)
Definition rememberingAfter10 : Hook :=
  completed (startRemembering (current tenSeconds) 10000 tenSeconds) tenSeconds.

(** The window set to 100 s at mount. *)
Definition window100 : Hook := updateBufferSize 100 0 (useAudioBuffer 30).

(** A buffer that holds ten seconds of audio in a 100 s window. *)
Definition tenSecondsIn100 : Hook :=
  oneChunkASecond (current window100) 0 11 window100.

(** A buffer that holds sixty seconds of audio in a 100 s window. *)
Definition sixtySecondsIn100 : Hook :=
  oneChunkASecond (current window100) 0 61 window100.

(** One chunk delivered at 1 s, and nothing since. *)
Definition oneOldChunk : Hook :=
  oneChunkASecond (initialState 30) 1 1 (useAudioBuffer 30).

(** No microphone: every way the acquisition can fail. *)
Definition permissionDenied : Browser :=
  {| permissionState := denied; getUserMedia := Normal tt;
     newMediaRecorder := Normal tt |}.

Definition notAllowed : Browser :=
  {| permissionState := prompt;
     getUserMedia := Throw (mkError "NotAllowedError" "Permission denied");
     newMediaRecorder := Normal tt |}.

(** [browser] makes the [try] block of [startBuffering] throw. *)
Definition acquisition_fails (browser : Browser) : Prop :=
  permissionState browser = denied \/
  fails (getUserMedia browser) \/
  fails (newMediaRecorder browser).

(** The demo generator firing at the given times with the given samples. *)
Definition demoTicks (ticks : list (list byte * Z)) : list Event :=
  map (fun t => IntervalTick (fst t) (snd t)) ticks.

(** Timestamps never decrease along the buffer. *)
Definition in_timestamp_order (l : list Chunk) : Prop :=
  StronglySorted Z.le (map timestamp l).

(** ** Notions used to state properties of the mounted hook *)

(** The try block of [startBuffering] goes through with [browser]. *)
Definition acquires (browser : Browser) : bool :=
  negb (is_denied (permissionState browser)) &&
  match getUserMedia browser with Normal _ => true | Throw _ => false end &&
  match newMediaRecorder browser with Normal _ => true | Throw _ => false end.

(** A hook between two events, once the effects have run: it is not
    buffering, no interval is live and no recorder records.  This is the
    state of a hook at mount, and every event leaves the hook so. *)
Definition at_rest (h : Hook) : Prop :=
  isBuffering (current h) = false /\
  intervalRef h = None /\
  forall r, mediaRecorderRef h = Some r -> recorderState r <> recording.



(** One call of the recorder's handler: the state the handler is closed
    over, the data delivered and what [Date.now()] reads. *)
Record Delivery := mkDelivery {
  delivery_state : AudioBufferState;
  delivery_data : Blob;
  delivery_time : Z
}.

Definition delivered (deliveries : list Delivery) (h : Hook) : Hook :=
  fold_left (fun h d => ondataavailable (delivery_state d) (delivery_data d)
                          (delivery_time d) h)
            deliveries h.


(** What a delivery does, when it reaches a callback: the hook is left as
    it was, or the data is ingested by a callback closed over some state
    [s]. *)
Definition ingested_in (h h' : Hook) (data : Blob) (now : Z) : Prop :=
  exists s, current h' = current (ingest s data now h) /\
            bufferRef h' = bufferRef (ingest s data now h).

(** ** Further scenarios of the mounted hook *)


(** A session that outlasts the window: remembering starts on an empty
    buffer with a 30 s window, and forty-five chunks are ingested, one a
    second, by a handler whose render is remembering. *)
Definition rememberingFromStart : Hook :=
  completed (startRemembering (initialState 30) 0 (useAudioBuffer 30))
            (useAudioBuffer 30).

Definition fortyFiveChunks : list Delivery :=
  map (fun i => mkDelivery (current rememberingFromStart) (payload i)
                           (Z.of_nat i * 1000))
      (seq 1 45).

(** Ten seconds of audio are buffered; buffering is started again, the
    recorder is stopped by the cleanup and delivers its last data, the
    window is resized and the hook is stopped. *)
Definition restartAfterTenSeconds : list Event :=
  [CallStartBuffering microphone 10500; DataAvailable (payload 11) 10510;
   CallUpdateBufferSize 40 11000; CallStopBuffering].

(** While the hook remembers, [startBuffering] is called: the recorder it
    builds is closed over a state that remembers, and its last data are
    recorded. *)
Definition restartedWhileRemembering : Hook :=
  step rememberingAfter10 (CallStartBuffering microphone 10500).

(** [startBuffering] is called twice: the first recorder delivers one byte
    when it is stopped, the second nothing. *)
Definition twoStarts : list Event :=
  [CallStartBuffering microphone 0; DataAvailable (payload 1) 5;
   CallStartBuffering microphone 1000; DataAvailable (mkBlob [] webm_opus) 1005].


(** ** Notions used to state further properties of the hook *)

(** The sum of the sizes of blobs. *)
Definition total_size (blobs : list Blob) : Z :=
  fold_right (fun b acc => size b + acc) 0 blobs.

(** The clock never goes back along a list of events: every ingestion
    happens no earlier than [t] and than the ingestions before it. *)
Fixpoint clock_never_goes_back (t : Z) (events : list Event) : Prop :=
  match events with
  | [] => True
  | DataAvailable _ now :: rest | IntervalTick _ now :: rest =>
    t <= now /\ clock_never_goes_back now rest
  | _ :: rest => clock_never_goes_back t rest
  end.

(** The demo generator never hands over an empty array of samples. *)
Definition tick_has_samples (e : Event) : Prop :=
  match e with
  | IntervalTick buffer _ => buffer <> []
  | _ => True
  end.

(** The events that ingest: data from the recorder, a tick of the demo
    generator. *)
Definition is_ingestion (e : Event) : Prop :=
  match e with
  | DataAvailable _ _ | IntervalTick _ _ => True
  | _ => False
  end.

(** ** The WAV encoder of the component ([audioBufferToWav])

    A [DataView] over an [ArrayBuffer] is a list of bytes; a write outside
    the buffer, a [RangeError] in the source, is [None].  Samples are
    floats in the source and exact rationals here; the products by
    [0x8000] and [0x7FFF] of single-precision samples are exact in double
    precision, so nothing is lost (a [NaN] sample is not modelled). *)

(** An [AudioBuffer] with one channel: its sample rate and the samples of
    channel 0; [buffer.length] is the number of samples. *)
Record AudioBuffer := mkAudioBuffer {
  sampleRate : Z;
  channelData : list Q
}.

Definition andThen {A B} (c : option A) (k : A -> option B) : option B :=
  match c with
  | Some a => k a
  | None => None
  end.

(** The byte that holds [v] modulo 256, and the number a byte holds. *)
Definition byte_of_Z (v : Z) : byte :=
  match Byte.of_N (Z.to_N (v mod 256)) with
  | Some b => b
  | None => x00
  end.

Definition Z_of_byte (b : byte) : Z := Z.of_N (Byte.to_N b).

(** [view.setUint8(offset, value)] *)
Fixpoint setUint8 (view : list byte) (offset : nat) (value : Z)
    : option (list byte) :=
  match view, offset with
  | [], _ => None
  | _ :: rest, O => Some (byte_of_Z value :: rest)
  | b :: rest, S n =>
    andThen (setUint8 rest n value) (fun rest' => Some (b :: rest'))
  end.

(** [view.setUint16(offset, value, true)]: little endian. *)
Definition setUint16 (view : list byte) (offset : nat) (value : Z)
    : option (list byte) :=
  andThen (setUint8 view offset value) (fun view1 =>
  setUint8 view1 (offset + 1) (value / 256)).

(** [view.setUint32(offset, value, true)]: little endian. *)
Definition setUint32 (view : list byte) (offset : nat) (value : Z)
    : option (list byte) :=
  andThen (setUint16 view offset value) (fun view1 =>
  setUint16 view1 (offset + 2) (value / 65536)).

(** The conversion of a number to an integer: its fraction is dropped. *)
Definition Qtrunc (q : Q) : Z :=
  if Qle_bool 0 q then Qfloor q else Qceiling q.

(** [view.setInt16(offset, value, true)]: the integer part of [value], in
    two's complement, little endian. *)
Definition setInt16 (view : list byte) (offset : nat) (value : Q)
    : option (list byte) :=
  setUint16 view offset (Qtrunc value).

(** [writeString(offset, string)] *)
Fixpoint writeString (view : list byte) (offset : nat) (s : string)
    : option (list byte) :=
  match s with
  | EmptyString => Some view
  | String c rest =>
    andThen (setUint8 view offset (Z.of_N (Ascii.N_of_ascii c)))
            (fun view1 => writeString view1 (S offset) rest)
  end.

(** The 44 bytes of the header, as the source writes them. *)
Definition writeHeader (view : list byte) (length : Z) (rate : Z)
    : option (list byte) :=
  andThen (writeString view 0 "RIFF") (fun view =>
  andThen (setUint32 view 4 (36 + length * 2)) (fun view =>
  andThen (writeString view 8 "WAVE") (fun view =>
  andThen (writeString view 12 "fmt ") (fun view =>
  andThen (setUint32 view 16 16) (fun view =>
  andThen (setUint16 view 20 1) (fun view =>
  andThen (setUint16 view 22 1) (fun view =>
  andThen (setUint32 view 24 rate) (fun view =>
  andThen (setUint32 view 28 (rate * 2)) (fun view =>
  andThen (setUint16 view 32 2) (fun view =>
  andThen (setUint16 view 34 16) (fun view =>
  andThen (writeString view 36 "data") (fun view =>
  setUint32 view 40 (length * 2))))))))))))).

(** What is written for one sample: the sample clamped to [-1, 1], then
    scaled by [0x8000] when negative and by [0x7FFF] otherwise. *)
Definition scaledSample (x : Q) : Q :=
  let sample := Qmax (-1) (Qmin 1 x) in
  if Qgtb 0 sample then (sample * 32768)%Q else (sample * 32767)%Q.

(** The loop over the samples, from [offset] on. *)
Fixpoint writeSamples (view : list byte) (offset : nat) (samples : list Q)
    : option (list byte) :=
  match samples with
  | [] => Some view
  | x :: rest =>
    andThen (setInt16 view offset (scaledSample x))
            (fun view1 => writeSamples view1 (offset + 2) rest)
  end.

Definition audioBufferToWav (buffer : AudioBuffer) : option Blob :=
  let length := List.length (channelData buffer) in
  let arrayBuffer := repeat x00 (44 + length * 2) in
  andThen (writeHeader arrayBuffer (Z.of_nat length) (sampleRate buffer))
    (fun view =>
  andThen (writeSamples view 44 (channelData buffer)) (fun view =>
  Some (mkBlob view "audio/wav"))).

(** Reading the file back: the number held by bytes in little-endian
    order, and the signed 16-bit number held by two bytes. *)
Definition le_value (bytes : list byte) : Z :=
  fold_right (fun b acc => Z_of_byte b + 256 * acc) 0 bytes.

Definition int16_value (bytes : list byte) : Z :=
  if le_value bytes <? 32768 then le_value bytes else le_value bytes - 65536.

(** The bytes from [offset], [count] of them. *)
Definition bytes_at (offset count : nat) (bytes : list byte) : list byte :=
  firstn count (skipn offset bytes).

Definition le16 (v : Z) : list byte := [byte_of_Z v; byte_of_Z (v / 256)].

Definition le32 (v : Z) : list byte := le16 v ++ le16 (v / 65536).

Definition ascii_bytes (s : string) : list byte :=
  map (fun c => byte_of_Z (Z.of_N (Ascii.N_of_ascii c)))
      (list_ascii_of_string s).

(** The two bytes of a sample. *)
Definition sample_bytes (x : Q) : list byte := le16 (Qtrunc (scaledSample x)).

(** The header of a file of [length] samples at [rate] samples a second,
    field after field. *)
Definition wav_header (length rate : Z) : list byte :=
  ascii_bytes "RIFF" ++ le32 (36 + length * 2) ++ ascii_bytes "WAVE" ++
  ascii_bytes "fmt " ++ le32 16 ++ le16 1 ++ le16 1 ++ le32 rate ++
  le32 (rate * 2) ++ le16 2 ++ le16 16 ++ ascii_bytes "data" ++
  le32 (length * 2).

(** Five samples at 44100 Hz: silence, half scale up and down, and two
    samples beyond full scale. *)
Definition fiveSamples : AudioBuffer :=
  mkAudioBuffer 44100 [0; 1 # 2; -1 # 2; 2; -2]%Q.

(** ** The audio inspector of the component ([seekAudio] and its callers) *)

Module Inspector.

(** The [currentAudio] state; [audioElement] is present or not, times are
    in seconds (exact rationals here). *)
Record CurrentAudio := mkCurrentAudio {
  url : option string;
  duration : Q;
  currentTime : Q;
  isPlaying : bool;
  audioElement : bool
}.

(** [seekAudio(time)], called from a render whose state is [currentAudio],
    acting on the latest state [prev]. *)
Definition seekAudio (currentAudio : CurrentAudio) (time : Q)
    (prev : CurrentAudio) : CurrentAudio :=
  if negb (audioElement currentAudio) then prev
  else
    let seekTime := Qmax 0 (Qmin time (duration currentAudio)) in
    {| url := url prev; duration := duration prev; currentTime := seekTime;
       isPlaying := isPlaying prev; audioElement := audioElement prev |}.

Definition rewindAudio (currentAudio prev : CurrentAudio) : CurrentAudio :=
  seekAudio currentAudio (currentTime currentAudio - 10)%Q prev.

Definition fastForwardAudio (currentAudio prev : CurrentAudio)
    : CurrentAudio :=
  seekAudio currentAudio (currentTime currentAudio + 10)%Q prev.

End Inspector.

(** ** The recorder hook ([useAudioRecorder]) *)

Module Recorder.

Record AudioRecorderState := mkState {
  isRecording : bool;
  isPlaying : bool;
  currentTime : Q;
  duration : Q;
  audioUrl : option Blob;        (* the blob the object URL designates *)
  waveformData : list Q
}.

Definition initialState : AudioRecorderState :=
  {| isRecording := false; isPlaying := false; currentTime := 0;
     duration := 0; audioUrl := None; waveformData := [] |}.

(** The hook: its latest state, [chunksRef.current], the MIME type of the
    recorder, and the alerts shown so far (latest first). *)
Record Hook := mkHook {
  current : AudioRecorderState;
  chunksRef : list Blob;
  mimeType : string;
  alerts : list string
}.

Definition useAudioRecorder : Hook :=
  {| current := initialState; chunksRef := []; mimeType := "";
     alerts := [] |}.

Definition alert (text : string) (h : Hook) : Hook :=
  {| current := current h; chunksRef := chunksRef h; mimeType := mimeType h;
     alerts := text :: alerts h |}.

Definition with_waveformData (v : list Q) (prev : AudioRecorderState) :=
  {| isRecording := isRecording prev; isPlaying := isPlaying prev;
     currentTime := currentTime prev; duration := duration prev;
     audioUrl := audioUrl prev; waveformData := v |}.

Definition with_isRecording (b : bool) (prev : AudioRecorderState) :=
  {| isRecording := b; isPlaying := isPlaying prev;
     currentTime := currentTime prev; duration := duration prev;
     audioUrl := audioUrl prev; waveformData := waveformData prev |}.

Definition with_recording_stopped (url : Blob) (prev : AudioRecorderState) :=
  {| isRecording := false; isPlaying := isPlaying prev;
     currentTime := currentTime prev; duration := duration prev;
     audioUrl := Some url; waveformData := waveformData prev |}.

Definition setState (f : AudioRecorderState -> AudioRecorderState)
    (h : Hook) : Hook :=
  {| current := f (current h); chunksRef := chunksRef h;
     mimeType := mimeType h; alerts := alerts h |}.

(** One run of [updateWaveform]: nothing without an analyser; otherwise
    the first 32 bins, each divided by 255. *)
Definition updateWaveform (analyser : bool) (dataArray : list Z) (h : Hook)
    : Hook :=
  if negb analyser then h
  else
    let waveformData := map (fun value => (inject_Z value / 255)%Q)
                            (firstn 32 dataArray) in
    setState (with_waveformData waveformData) h.

(** The alert chosen in the [catch] block of [startRecording]. *)
Definition failureAlert (error : JsError) : string :=
  (if String.eqb (name error) "NotAllowedError" then
     "Microphone access denied. Please enable microphone permissions and try again."
   else if String.eqb (name error) "NotFoundError" then
     "No microphone found. Please connect a microphone and try again."
   else if String.eqb (name error) "NotReadableError" then
     "Microphone is already in use by another application. Please close other apps using the microphone and try again."
   else
     "Failed to access microphone: " ++
     (if String.eqb (message error) "" then "Unknown error"
      else message error) ++
     ". Please check your microphone settings.")%string.

(** [startRecording]: [recorderType] is the MIME type the new recorder
    reports, [dataArray] what the analyser holds when the waveform is
    first read.  [initializeAudio] catches its own errors, so it only
    decides whether there is an analyser; once the recorder is built,
    connecting the analyser and [mediaRecorder.start()] are taken to
    succeed. *)
Definition startRecording (browser : Browser) (recorderType : string)
    (analyser : bool) (dataArray : list Z) (h : Hook) : Hook :=
  if is_denied (permissionState browser) then
    alert "Microphone access denied. Please enable microphone permissions in your browser settings and refresh the page." h
  else
    match getUserMedia browser with
    | Throw error => alert (failureAlert error) h
    | Normal _ =>
      match newMediaRecorder browser with
      | Throw error => alert (failureAlert error) h
      | Normal _ =>
        let h1 := {| current := current h; chunksRef := [];
                     mimeType := recorderType; alerts := alerts h |} in
        let h2 := setState (with_isRecording true) h1 in
        updateWaveform analyser dataArray h2
      end
    end.

(** [mediaRecorder.ondataavailable] *)
Definition ondataavailable (data : Blob) (h : Hook) : Hook :=
  if 0 <? size data then
    {| current := current h; chunksRef := chunksRef h ++ [data];
       mimeType := mimeType h; alerts := alerts h |}
  else h.

(** [mediaRecorder.onstop] *)
Definition onstop (h : Hook) : Hook :=
  let blob := new_Blob (chunksRef h)
                (if String.eqb (mimeType h) "" then "audio/wav"
                 else mimeType h) in
  setState (with_recording_stopped blob) h.

(** [resetRecording] *)
Definition resetRecording (h : Hook) : Hook :=
  {| current := initialState; chunksRef := []; mimeType := mimeType h;
     alerts := alerts h |}.

(** The recorder delivering blobs one after the other. *)
Definition deliver (blobs : list Blob) (h : Hook) : Hook :=
  fold_left (fun h data => ondataavailable data h) blobs h.

End Recorder.

(** The blobs that are not empty. *)
Definition non_empty (b : Blob) : bool := 0 <? size b.

(** ** The web-mode database ([saveToWebDatabase], [getFromWebDatabase])

    [localStorage] maps a key to a text.  The texts are kept as what
    [JSON.parse] makes of them: an array of entries (what
    [saveToWebDatabase] writes), a string, or anything else (a text that
    does not parse, a number, an object, [null]).  A missing item and an
    empty text both read as the empty array.  A write that exceeds the
    quota is not modelled. *)

Module WebDb.

Section Entries.

Variable Data : Type.

(** [{ ...data, id: Date.now(), created_at: new Date().toISOString() }] *)
Record Entry := mkEntry { data : Data; id : Z; created_at : string }.

Inductive Parsed :=
| JArray (entries : list Entry)
| JString (text : string)
| JOther.

Definition Storage := string -> option Parsed.

(** [JSON.parse(localStorage.getItem(key) || '[]')] *)
Definition parse (item : option Parsed) : Parsed :=
  match item with
  | Some parsed => parsed
  | None => JArray []
  end.

Definition setItem (key : string) (value : Parsed) (localStorage : Storage)
    : Storage :=
  fun k => if String.eqb k key then Some value else localStorage k.

(** [saveToWebDatabase]: an exception ([unshift] on what is not an array)
    is caught and nothing is stored. *)
Definition saveToWebDatabase (key : string) (d : Data) (now : Z)
    (iso : string) (localStorage : Storage) : Storage :=
  match parse (localStorage key) with
  | JArray existing =>
    let newData := mkEntry d now iso in
    let existing1 := newData :: existing in
    let existing2 :=
      if 100 <? Z.of_nat (List.length existing1)
      then firstn 100 existing1 else existing1 in
    setItem key (JArray existing2) localStorage
  | _ => localStorage
  end.

(** The end index of [slice(0, limit)] on [len] elements: a negative
    limit counts from the end. *)
Definition slice_end (limit : Z) (len : nat) : nat :=
  Z.to_nat (if limit <? 0 then Z.max (Z.of_nat len + limit) 0
            else Z.min limit (Z.of_nat len)).

(** What [getFromWebDatabase] returns: rows, or, when the item is a JSON
    string, a piece of that string. *)
Inductive Fetched :=
| Rows (rows : list Entry)
| Text (text : string).

Definition getFromWebDatabase (key : string) (limit : Z)
    (localStorage : Storage) : Fetched :=
  match parse (localStorage key) with
  | JArray entries =>
    Rows (firstn (slice_end limit (List.length entries)) entries)
  | JString text =>
    Text (substring 0 (slice_end limit (String.length text)) text)
  | JOther => Rows []
  end.

End Entries.

Arguments mkEntry {Data} data id created_at.
Arguments data {Data} e.
Arguments id {Data} e.
Arguments created_at {Data} e.
Arguments JArray {Data} entries.
Arguments JString {Data} text.
Arguments JOther {Data}.
Arguments Rows {Data} rows.
Arguments Text {Data} text.
Arguments parse {Data} item.
Arguments setItem {Data} key value localStorage k.
Arguments saveToWebDatabase {Data} key d now iso localStorage k.
Arguments getFromWebDatabase {Data} key limit localStorage.

(** What [saveTrigger] stores. *)
Record TriggerData := mkTriggerData {
  trigger_type : string;
  trigger_value : string;
  is_active : bool
}.

(** [interface SoundTrigger] *)
Definition SoundTrigger := Entry TriggerData.

(** [saveTrigger]: [tauri] is the answer of the backend when Tauri is
    available; in web mode the trigger goes to [localStorage] and the
    clock, read once more, is returned as id. *)
Definition saveTrigger (tauri : option (Completion Z))
    (triggerType triggerValue : string) (now now' : Z) (iso : string)
    (localStorage : Storage TriggerData)
    : Completion Z * Storage TriggerData :=
  match tauri with
  | Some answer => (answer, localStorage)
  | None =>
    (Normal now',
     saveToWebDatabase "triggers"
       (mkTriggerData triggerType triggerValue true) now iso localStorage)
  end.

Definition defaultTriggers (iso : string) : list SoundTrigger :=
  [mkEntry (mkTriggerData "sound" "baby crying" true) 1 iso;
   mkEntry (mkTriggerData "sound" "gunshots" true) 2 iso;
   mkEntry (mkTriggerData "speech" "help" true) 3 iso;
   mkEntry (mkTriggerData "speech" "emergency" true) 4 iso].

(** [getTriggers]: a failure of the backend gives no trigger at all; in
    web mode the defaults are returned when nothing is stored. *)
Definition getTriggers (tauri : option (Completion (list SoundTrigger)))
    (iso : string) (localStorage : Storage TriggerData)
    : Fetched TriggerData :=
  match tauri with
  | Some (Normal triggers) => Rows triggers
  | Some (Throw _) => Rows []
  | None =>
    match getFromWebDatabase "triggers" 100 localStorage with
    | Rows [] => Rows (defaultTriggers iso)
    | Rows webTriggers => Rows webTriggers
    | Text text =>
      if (0 <? String.length text)%nat then Text text
      else Rows (defaultTriggers iso)
    end
  end.

(** The triggers of the component, and [loadTriggers]: what is not an
    array makes [filter] throw, which is caught and changes nothing. *)
Record Triggers := mkTriggers {
  soundTriggers : list string;
  speechTriggers : list string
}.

Definition of_type (type : string) (t : SoundTrigger) : bool :=
  String.eqb (trigger_type (data t)) type.

Definition loadTriggers (fetched : Fetched TriggerData) (prev : Triggers)
    : Triggers :=
  match fetched with
  | Rows triggers =>
    {| soundTriggers :=
         map (fun t => trigger_value (data t))
             (filter (of_type "sound") triggers);
       speechTriggers :=
         map (fun t => trigger_value (data t))
             (filter (of_type "speech") triggers) |}
  | Text _ => prev
  end.

End WebDb.

(** ** The speech trigger of the component ([onresult])

    Strings hold ASCII characters here; [toLowerCase] maps the letters A
    to Z to a to z. *)

Module Speech.

Definition lower (c : ascii) : ascii :=
  let n := nat_of_ascii c in
  if (65 <=? n)%nat && (n <=? 90)%nat then ascii_of_nat (n + 32) else c.

Fixpoint toLowerCase (s : string) : string :=
  match s with
  | EmptyString => EmptyString
  | String c rest => String (lower c) (toLowerCase rest)
  end.

(** [text.includes(part)] *)
Fixpoint includes (text part : string) : bool :=
  prefix part text ||
  match text with
  | EmptyString => false
  | String _ rest => includes rest part
  end.

(** What the handler acts on: the transcript log (the texts heard), the
    log of detections (the trigger named) and the number of calls to
    [handleManualRecord]. *)
Record Listener := mkListener {
  transcript : list string;
  nonverbal : list string;
  manualRecords : nat
}.

(** [speechTriggers.filter(trigger => transcript.includes(trigger.toLowerCase()))] *)
Definition matchedTriggers (speechTriggers : list string) (heard : string)
    : list string :=
  filter (fun trigger => includes (toLowerCase heard) (toLowerCase trigger))
         speechTriggers.

(** [speechRecognitionRef.current.onresult]: [heard] is the transcript of
    the last result; [speechTriggers] and [buffering] (the
    [audioBuffer.isBuffering] the handler reads) are those of the render
    that called [initializeSpeechRecognition]. *)
Definition onresult (speechTriggers : list string) (buffering : bool)
    (heard : string) (l : Listener) : Listener :=
  match matchedTriggers speechTriggers heard with
  | [] => l
  | first :: _ =>
    {| transcript := toLowerCase heard :: firstn 4 (transcript l);
       nonverbal := first :: firstn 9 (nonverbal l);
       manualRecords :=
         if buffering then S (manualRecords l) else manualRecords l |}
  end.

(** The results of the recogniser, one after the other. *)
Definition listen (speechTriggers : list string) (buffering : bool)
    (results : list string) (l : Listener) : Listener :=
  fold_left (fun l heard => onresult speechTriggers buffering heard l)
            results l.

End Speech.

(** A result matches when some speech trigger is found in it. *)
Definition speech_matches (speechTriggers : list string) (heard : string)
    : bool :=
  match Speech.matchedTriggers speechTriggers heard with
  | [] => false
  | _ :: _ => true
  end.

(** * Properties *)

(** ** Ingestion: basic facts *)

Lemma ingest_bufferRef (state : AudioBufferState) data now h :
  bufferRef (ingest state data now h) =
  filter (newer_than (now - bufferSize state * 1000))
         (bufferRef h ++ [mkChunk data now]).
Proof. unfold ingest. destruct (isRemembering state); reflexivity. Qed.

Lemma ingest_recordedChunks (state : AudioBufferState) data now h :
  recordedChunks (current (ingest state data now h)) =
  if isRemembering state then recordedChunks (current h) ++ [data]
  else recordedChunks (current h).
Proof. unfold ingest. destruct (isRemembering state); reflexivity. Qed.

Lemma ingest_bufferSize (state : AudioBufferState) data now h :
  bufferSize (current (ingest state data now h)) = bufferSize (current h).
Proof. unfold ingest. destruct (isRemembering state); reflexivity. Qed.

Lemma newer_than_spec cutoff c :
  newer_than cutoff c = true <-> cutoff < timestamp c.
Proof. unfold newer_than. apply Z.ltb_lt. Qed.

Lemma in_range_spec from to c :
  in_range from to c = true <-> from <= timestamp c <= to.
Proof.
  unfold in_range. rewrite andb_true_iff, !Z.leb_le. reflexivity.
Qed.

(** After an ingestion every chunk left is newer than the time of the
    ingestion minus the window the callback was created with. *)
Lemma ingest_within_closure_window (state : AudioBufferState) data now h c :
  In c (bufferRef (ingest state data now h)) ->
  now - timestamp c < bufferSize state * 1000.
Proof.
  rewrite ingest_bufferRef, filter_In, newer_than_spec. lia.
Qed.

Lemma ingest_retains (state : AudioBufferState) data now h c :
  In c (bufferRef (ingest state data now h)) <->
  In c (bufferRef h ++ [mkChunk data now]) /\
  now - 1000 * bufferSize state < timestamp c.
Proof.
  rewrite ingest_bufferRef, filter_In, newer_than_spec.
  split; intros [H1 H2]; split; auto; lia.
Qed.

Lemma relevantChunks_spec (state : AudioBufferState) now h c :
  In c (relevantChunks state now h) <->
  In c (bufferRef h) /\
  now - 1000 * bufferSize state <= timestamp c <= now.
Proof.
  unfold relevantChunks. rewrite filter_In, in_range_spec.
  split; intros [H1 H2]; split; auto; lia.
Qed.

Lemma ingest_refs (state : AudioBufferState) data now h :
  mediaRecorderRef (ingest state data now h) = mediaRecorderRef h /\
  intervalRef (ingest state data now h) = intervalRef h.
Proof. unfold ingest. destruct (isRemembering state); split; reflexivity. Qed.

Lemma ingest_current_fields (state : AudioBufferState) data now h :
  isBuffering (current (ingest state data now h)) = isBuffering (current h) /\
  bufferSize (current (ingest state data now h)) = bufferSize (current h) /\
  isRemembering (current (ingest state data now h)) = isRemembering (current h).
Proof. unfold ingest. destruct (isRemembering state); repeat split. Qed.

(** ** The window boundary: eviction is strict, extraction inclusive *)

(** C10.  An ingestion at time [T] by a callback whose window is
    [bufferSize state] seconds keeps exactly the chunks (the new one
    included) whose timestamp is strictly greater than [T - 1000 * W];
    [triggerRecording] at [T] resolves with the blobs of exactly the
    chunks with [T - 1000 * W <= timestamp <= T].  The blob of a chunk
    stamped exactly [T - 1000 * W] is thus part of what an extraction at
    [T] returns, while an ingestion at [T] evicts the chunk.  The same
    holds for the demo generator. *)
Theorem eviction_strict_extraction_inclusive
    (state : AudioBufferState) (data : Blob) (buffer : list byte)
    (T : Z) (h : Hook) (c : Chunk)
    (Hsize : 0 < size data) (Hwindow : 0 <= bufferSize state) :
  (In c (bufferRef (ondataavailable state data T h)) <->
   In c (bufferRef h ++ [mkChunk data T]) /\
   T - 1000 * bufferSize state < timestamp c) /\
  (In c (bufferRef (demoTick state buffer T h)) <->
   In c (bufferRef h ++ [mkChunk (mkBlob buffer webm_opus) T]) /\
   T - 1000 * bufferSize state < timestamp c) /\
  (exists extracted,
     fst (triggerRecording state T h) =
       Resolved (new_Blob (map blob extracted) webm_opus) /\
     extracted =
       filter (in_range (T - bufferSize state * 1000) T) (bufferRef h) /\
     (In c extracted <->
      In c (bufferRef h) /\ T - 1000 * bufferSize state <= timestamp c <= T)) /\
  (In c (bufferRef h) -> timestamp c = T - 1000 * bufferSize state ->
   (exists before after,
      fst (triggerRecording state T h) =
        Resolved (new_Blob (before ++ blob c :: after) webm_opus)) /\
   ~ In c (bufferRef (ondataavailable state data T h)) /\
   ~ In c (bufferRef (demoTick state buffer T h))).
Proof.
  assert (Hon : ondataavailable state data T h = ingest state data T h).
  { unfold ondataavailable.
    destruct (0 <? size data) eqn:E; [reflexivity|].
    apply Z.ltb_ge in E. lia. }
  rewrite Hon. unfold demoTick.
  split; [apply ingest_retains|].
  split; [apply ingest_retains|].
  split.
  { eexists. split; [reflexivity|]. split; [reflexivity|].
    apply relevantChunks_spec. }
  intros Hc Hts. split; [|split].
  - assert (Hin : In c (relevantChunks state T h)).
    { apply relevantChunks_spec. split; [assumption | lia]. }
    apply (in_map blob) in Hin. apply in_split in Hin.
    destruct Hin as (before & after & E).
    exists before, after. unfold triggerRecording. simpl. rewrite E.
    reflexivity.
  - intros Hin. apply ingest_retains in Hin. lia.
  - intros Hin. apply ingest_retains in Hin. lia.
Qed.

Lemma eviction_strict_extraction_inclusive_witness :
  0 < size (payload 7) /\ 0 <= bufferSize (initialState 30) /\
  In (mkChunk (payload 1) 1000) (bufferRef oneOldChunk) /\
  (exists before after,
     fst (triggerRecording (initialState 30) 31000 oneOldChunk) =
       Resolved (new_Blob (before ++ payload 1 :: after) webm_opus)) /\
  fst (triggerRecording (initialState 30) 31000 oneOldChunk) =
    Resolved (payload 1) /\
  fst (triggerRecording (initialState 30) 31001 oneOldChunk) =
    Resolved (mkBlob [] webm_opus) /\
  ~ In (mkChunk (payload 1) 1000)
       (bufferRef (ondataavailable (initialState 30) (payload 7) 31000
                     oneOldChunk)).
Proof.
  assert (H0 : 0 < size (payload 7)) by reflexivity.
  assert (H1 : 0 <= bufferSize (initialState 30)) by discriminate.
  assert (H2 : In (mkChunk (payload 1) 1000) (bufferRef oneOldChunk))
    by (left; reflexivity).
  destruct (eviction_strict_extraction_inclusive (initialState 30)
              (payload 7) [x00] 31000 oneOldChunk (mkChunk (payload 1) 1000)
              H0 H1) as (_ & _ & _ & H).
  destruct (H H2 eq_refl) as (Hin & Hout & _).
  repeat (split; [assumption|]).
  split; [reflexivity|]. split; [reflexivity|]. exact Hout.
Defined.

(** ** The window after an ingestion (C1) *)



(** ** Forty-five seconds in a thirty second window (C4) *)

(** C4, as stated, fails: after the 45th ingestion thirty chunks remain
    but the fill is not 100 %. *)
Lemma fill_after_45_seconds_is_not_full :
  ~ (List.length (bufferRef after45seconds) = 30%nat /\
     (getBufferFill (current after45seconds) after45seconds == 100)%Q).
Proof. intros [_ H]. vm_compute in H. discriminate H. Qed.

(** C4, amended.  With a 30 s window and one chunk a second, the 45th
    ingestion leaves exactly the chunks 16 to 45 (the oldest fifteen are
    evicted); they span 29 s, so [getBufferFill] is 29/30 of 100 %. *)
Theorem after_45_seconds_30_chunks_fill_29_30 :
  List.length (bufferRef after45seconds) = 30%nat /\
  map blob (bufferRef after45seconds) = map payload (seq 16 30) /\
  map timestamp (bufferRef after45seconds) =
    map (fun i => Z.of_nat i * 1000) (seq 16 30) /\
  (getBufferDuration after45seconds == 29)%Q /\
  (getBufferFill (current after45seconds) after45seconds == (29 # 30) * 100)%Q.
Proof.
  repeat split; vm_compute; reflexivity.
Qed.

(** ** Resizing (C5, C6) *)

Lemma filter_all {A} (p : A -> bool) (l : list A) :
  (forall x, In x l -> p x = true) -> filter p l = l.
Proof.
  induction l as [|a l IH]; intros H; simpl; [reflexivity|].
  rewrite (H a (or_introl eq_refl)). f_equal. apply IH.
  intros x Hx. apply H. right. exact Hx.
Qed.

Lemma filter_length_le {A} (p : A -> bool) (l : list A) :
  (List.length (filter p l) <= List.length l)%nat.
Proof.
  induction l as [|a l IH]; simpl; [lia|].
  destruct (p a); simpl; lia.
Qed.

Lemma clampedSize_range n : 30 <= clampedSize n <= 3000.
Proof. unfold clampedSize. lia. Qed.

Lemma updateBufferSize_bufferRef newSize now h :
  bufferRef (updateBufferSize newSize now h) =
  filter (newer_than (now - clampedSize newSize * 1000)) (bufferRef h).
Proof. reflexivity. Qed.

(** C5, as stated, fails: a resize that grows the window can evict.  One
    chunk was delivered at 1 s into a 30 s window and nothing since; at
    100 s the window is grown to 60 s, and the chunk is evicted. *)
Lemma growing_the_window_can_evict :
  bufferSize (current oneOldChunk) = 30 /\
  map timestamp (bufferRef oneOldChunk) = [1000] /\
  bufferSize (current (updateBufferSize 60 100000 oneOldChunk)) = 60 /\
  bufferRef (updateBufferSize 60 100000 oneOldChunk) = [].
Proof. repeat split. Qed.

(** C5, amended.  For every integer [newSize], [updateBufferSize] sets
    [bufferSize] to [newSize] clamped into [30, 3000] (it cannot reject)
    and at once, with no ingestion, keeps exactly the buffered chunks
    newer than [now] minus the new window: the others are evicted, and
    nothing that was evicted before comes back.  When every buffered chunk
    is within the old window at the time of the call, growing the window
    evicts nothing. *)
Theorem updateBufferSize_clamps_and_evicts (newSize now : Z) (h : Hook) :
  bufferSize (current (updateBufferSize newSize now h)) = clampedSize newSize /\
  30 <= clampedSize newSize <= 3000 /\
  (30 <= newSize <= 3000 -> clampedSize newSize = newSize) /\
  (newSize < 30 -> clampedSize newSize = 30) /\
  (3000 < newSize -> clampedSize newSize = 3000) /\
  (forall c, In c (bufferRef (updateBufferSize newSize now h)) <->
             In c (bufferRef h) /\
             now - 1000 * clampedSize newSize < timestamp c) /\
  bufferRef (updateBufferSize newSize now h) =
    filter (newer_than (now - clampedSize newSize * 1000)) (bufferRef h) /\
  ((forall c, In c (bufferRef h) ->
              now - timestamp c <= 1000 * bufferSize (current h)) ->
   bufferSize (current h) < clampedSize newSize ->
   bufferRef (updateBufferSize newSize now h) = bufferRef h).
Proof.
  split; [reflexivity|].
  split; [apply clampedSize_range|].
  split; [unfold clampedSize; lia|].
  split; [unfold clampedSize; lia|].
  split; [unfold clampedSize; lia|].
  split.
  { intros c. rewrite updateBufferSize_bufferRef, filter_In, newer_than_spec.
    split; intros [H1 H2]; split; auto; lia. }
  split; [reflexivity|].
  intros Hwin Hgrow. rewrite updateBufferSize_bufferRef.
  apply filter_all. intros c Hc. apply newer_than_spec.
  specialize (Hwin c Hc). lia.
Qed.

Lemma updateBufferSize_clamps_and_evicts_witness :
  (forall c, In c (bufferRef after45seconds) ->
             45500 - timestamp c <= 1000 * bufferSize (current after45seconds)) /\
  bufferSize (current after45seconds) < clampedSize 5000 /\
  bufferSize (current (updateBufferSize 5000 45500 after45seconds)) = 3000 /\
  bufferRef (updateBufferSize 5000 45500 after45seconds) =
  bufferRef after45seconds.
Proof.
  assert (Hwin : forall c, In c (bufferRef after45seconds) ->
             45500 - timestamp c <= 1000 * bufferSize (current after45seconds)).
  { intros c Hc. apply (in_map timestamp) in Hc.
    remember (timestamp c) as t eqn:Et. clear Et.
    vm_compute in Hc.
    repeat (destruct Hc as [Hc|Hc]; [rewrite <- Hc; vm_compute; discriminate|]).
    destruct Hc. }
  assert (Hgrow : bufferSize (current after45seconds) < clampedSize 5000)
    by reflexivity.
  destruct (updateBufferSize_clamps_and_evicts 5000 45500 after45seconds)
    as (Hsize & _ & _ & _ & _ & _ & _ & Hkeep).
  split; [exact Hwin|]. split; [exact Hgrow|].
  split; [exact Hsize|]. exact (Hkeep Hwin Hgrow).
Defined.

Lemma getBufferDuration_span h :
  (getBufferDuration h == inject_Z (span (bufferRef h)) / 1000)%Q.
Proof.
  unfold getBufferDuration, span. destruct (bufferRef h); reflexivity.
Qed.

Lemma sorted_last_max (l : list Chunk) (d x : Chunk) :
  in_timestamp_order l -> In x l -> timestamp x <= timestamp (last l d).
Proof.
  unfold in_timestamp_order.
  induction l as [|a l IH]; intros Hs Hx; [destruct Hx|].
  simpl in Hs. apply StronglySorted_inv in Hs. destruct Hs as [Hs Ha].
  destruct l as [|b l].
  - destruct Hx as [->|[]]. simpl. lia.
  - change (last (a :: b :: l) d) with (last (b :: l) d).
    destruct Hx as [->|Hx].
    + assert (Hin : In (last (b :: l) d) (b :: l)).
      { destruct (exists_last (l := b :: l)) as (l' & z & E); [discriminate|].
        rewrite E, last_last. apply in_or_app. right. left. reflexivity. }
      rewrite Forall_forall in Ha.
      apply Ha. apply in_map. exact Hin.
    + apply IH; assumption.
Qed.

Lemma sorted_head_min (a : Chunk) (l : list Chunk) (x : Chunk) :
  in_timestamp_order (a :: l) -> In x (a :: l) -> timestamp a <= timestamp x.
Proof.
  unfold in_timestamp_order. simpl. intros Hs Hx.
  apply StronglySorted_inv in Hs. destruct Hs as [_ Ha].
  destruct Hx as [->|Hx]; [lia|].
  rewrite Forall_forall in Ha. apply Ha. apply in_map. exact Hx.
Qed.

Lemma last_In {A} (a : A) (l : list A) (d : A) : In (last (a :: l) d) (a :: l).
Proof.
  destruct (exists_last (l := a :: l)) as (l' & z & E); [discriminate|].
  rewrite E, last_last. apply in_or_app. right. left. reflexivity.
Qed.

Lemma span_filter (p : Chunk -> bool) (l : list Chunk) :
  in_timestamp_order l -> span (filter p l) <= span l.
Proof.
  intros Hs. destruct l as [|a l]; [simpl; lia|].
  assert (Hnonneg : 0 <= span (a :: l)).
  { unfold span. pose proof (sorted_head_min a l _ Hs (last_In a l a)). lia. }
  destruct (filter p (a :: l)) as [|f r] eqn:E; [exact Hnonneg|].
  assert (Hsub : forall x, In x (f :: r) -> In x (a :: l)).
  { intros x Hx. rewrite <- E in Hx. apply filter_In in Hx. tauto. }
  unfold span.
  pose proof (sorted_last_max (a :: l) a _ Hs (Hsub _ (last_In f r f))).
  pose proof (sorted_head_min a l _ Hs (Hsub f (or_introl eq_refl))).
  lia.
Qed.

Lemma duration_le (a b : Z) :
  a <= b -> (inject_Z a / 1000 <= inject_Z b / 1000)%Q.
Proof.
  intros H. unfold Qdiv. apply Qmult_le_compat_r.
  - rewrite <- Zle_Qle. exact H.
  - discriminate.
Qed.

(** Timestamp order is what a clock that never goes back produces: an
    ingestion at a time no earlier than the buffered chunks keeps it, and
    so does a resize. *)
Lemma order_filter (p : Chunk -> bool) (l : list Chunk) :
  in_timestamp_order l -> in_timestamp_order (filter p l).
Proof.
  unfold in_timestamp_order.
  induction l as [|a l IH]; intros Hs; [constructor|].
  simpl in Hs. apply StronglySorted_inv in Hs. destruct Hs as [Hs Ha].
  simpl. destruct (p a); [|apply IH; exact Hs].
  simpl. constructor; [apply IH; exact Hs|].
  rewrite Forall_forall in *. intros t Ht.
  apply in_map_iff in Ht. destruct Ht as (c & <- & Hc).
  apply filter_In in Hc. apply Ha. apply in_map. tauto.
Qed.

Lemma order_snoc (l : list Chunk) (x : Chunk) :
  in_timestamp_order l ->
  (forall c, In c l -> timestamp c <= timestamp x) ->
  in_timestamp_order (l ++ [x]).
Proof.
  unfold in_timestamp_order.
  induction l as [|a l IH]; intros Hs Hle.
  - simpl. constructor; constructor.
  - simpl in Hs. apply StronglySorted_inv in Hs. destruct Hs as [Hs Ha].
    simpl. constructor.
    + apply IH; [exact Hs|]. intros c Hc. apply Hle. right. exact Hc.
    + rewrite map_app. apply Forall_app. split; [exact Ha|].
      constructor; [|constructor]. apply Hle. left. reflexivity.
Qed.

Lemma ingest_keeps_timestamp_order (state : AudioBufferState) data now h :
  in_timestamp_order (bufferRef h) ->
  (forall c, In c (bufferRef h) -> timestamp c <= now) ->
  in_timestamp_order (bufferRef (ingest state data now h)).
Proof.
  intros Hs Hle. rewrite ingest_bufferRef.
  apply order_filter. apply order_snoc; assumption.
Qed.

Lemma updateBufferSize_keeps_timestamp_order newSize now h :
  in_timestamp_order (bufferRef h) ->
  in_timestamp_order (bufferRef (updateBufferSize newSize now h)).
Proof.
  intros Hs. rewrite updateBufferSize_bufferRef. apply order_filter. exact Hs.
Qed.

(** C6, as stated, fails: shrinking the window can raise the fill.  Ten
    seconds of audio fill 10 % of a 100 s window; shrinking the window to
    50 s evicts nothing and the same ten seconds fill 20 %. *)
Lemma shrinking_can_raise_the_fill :
  bufferSize (current tenSecondsIn100) = 100 /\
  bufferSize (current (updateBufferSize 50 10000 tenSecondsIn100)) = 50 /\
  (getBufferFill (current tenSecondsIn100) tenSecondsIn100 == 10)%Q /\
  (getBufferFill (current (updateBufferSize 50 10000 tenSecondsIn100))
                 (updateBufferSize 50 10000 tenSecondsIn100) == 20)%Q /\
  ~ (getBufferFill (current (updateBufferSize 50 10000 tenSecondsIn100))
                   (updateBufferSize 50 10000 tenSecondsIn100)
     <= getBufferFill (current tenSecondsIn100) tenSecondsIn100)%Q.
Proof.
  split; [reflexivity|]. split; [reflexivity|].
  split; [vm_compute; reflexivity|]. split; [vm_compute; reflexivity|].
  intros H. vm_compute in H. apply H. reflexivity.
Qed.

(** C6, amended.  For every buffer in timestamp order, a resize (a shrink
    in particular) never increases what is buffered: neither the number of
    chunks nor [getBufferDuration], the span from the oldest to the newest
    chunk.  The fill, which divides that span by the window, is not
    covered: it can rise when the window shrinks. *)
Theorem shrinking_never_increases_duration (newSize now : Z) (h : Hook)
    (Horder : in_timestamp_order (bufferRef h)) :
  (getBufferDuration (updateBufferSize newSize now h) <= getBufferDuration h)%Q /\
  (List.length (bufferRef (updateBufferSize newSize now h)) <=
   List.length (bufferRef h))%nat.
Proof.
  split.
  - rewrite !getBufferDuration_span, updateBufferSize_bufferRef.
    apply duration_le. apply span_filter. exact Horder.
  - rewrite updateBufferSize_bufferRef. apply filter_length_le.
Qed.

Lemma shrinking_never_increases_duration_witness :
  in_timestamp_order (bufferRef sixtySecondsIn100) /\
  (getBufferDuration sixtySecondsIn100 == 60)%Q /\
  (getBufferDuration (updateBufferSize 30 60000 sixtySecondsIn100) == 29)%Q /\
  (getBufferDuration (updateBufferSize 30 60000 sixtySecondsIn100) <=
   getBufferDuration sixtySecondsIn100)%Q /\
  (List.length (bufferRef (updateBufferSize 30 60000 sixtySecondsIn100)) <=
   List.length (bufferRef sixtySecondsIn100))%nat.
Proof.
  assert (Horder : in_timestamp_order (bufferRef sixtySecondsIn100)).
  { unfold in_timestamp_order.
    let l := eval vm_compute in (map timestamp (bufferRef sixtySecondsIn100)) in
    change (StronglySorted Z.le l).
    repeat (constructor; try lia). }
  split; [exact Horder|].
  split; [vm_compute; reflexivity|].
  split; [vm_compute; reflexivity|].
  exact (shrinking_never_increases_duration 30 60000 sixtySecondsIn100 Horder).
Defined.

(** ** Remembering (C2) *)





(** What is recorded outlasts the window: of forty-five chunks ingested
    while remembering in a 30 s window, the buffer keeps thirty and the
    recording all forty-five. *)
Example recorded_chunks_outlast_the_window :
  map blob (bufferRef (delivered fortyFiveChunks rememberingFromStart)) =
    map payload (seq 16 30) /\
  recordedChunks (current (delivered fortyFiveChunks rememberingFromStart)) =
    map payload (seq 1 45).
Proof. split; vm_compute; reflexivity. Qed.

(** ** Misuse of the remembering callbacks (C7) *)

(** C7, as stated, fails: [startRemembering] on a hook that is remembering
    and [stopRemembering] on a hook that is idle both return normally. *)
Lemma remembering_misuse_is_not_reported :
  isRemembering (current rememberingAfter10) = true /\
  ~ fails (startRemembering (current rememberingAfter10) 12000
             rememberingAfter10) /\
  isRemembering (current buffering30) = false /\
  ~ fails (stopRemembering (current buffering30) buffering30).
Proof.
  split; [reflexivity|]. split.
  - intros [e He]. discriminate He.
  - split; [reflexivity|]. intros [e He]. discriminate He.
Qed.

(** C7, amended.  Neither callback ever fails, whatever the state.
    [startRemembering] returns the blobs of the chunks stamped at or after
    [now - 1000 * bufferSize], stores them as [recordedChunks] (replacing
    what a session in progress had recorded) and leaves the hook
    remembering.  [stopRemembering] returns the concatenation of the
    [recordedChunks] it sees (the empty blob when there are none), empties
    them and leaves the hook idle. *)
Theorem remembering_callbacks_never_fail
    (state : AudioBufferState) (now : Z) (h : Hook) :
  (exists h',
     startRemembering state now h =
       Normal (map blob (filter (not_before (now - bufferSize state * 1000))
                                (bufferRef h)), h') /\
     isRemembering (current h') = true /\
     recordedChunks (current h') =
       map blob (filter (not_before (now - bufferSize state * 1000))
                        (bufferRef h)) /\
     bufferRef h' = bufferRef h) /\
  (exists h',
     stopRemembering state h =
       Normal (new_Blob (recordedChunks state) webm_opus, h') /\
     isRemembering (current h') = false /\
     recordedChunks (current h') = [] /\
     bufferRef h' = bufferRef h) /\
  ~ fails (startRemembering state now h) /\
  ~ fails (stopRemembering state h) /\
  (recordedChunks state = [] ->
   size (new_Blob (recordedChunks state) webm_opus) = 0).
Proof.
  split; [eexists; repeat split|].
  split; [eexists; repeat split|].
  split; [intros [e He]; discriminate He|].
  split; [intros [e He]; discriminate He|].
  intros ->. reflexivity.
Qed.

Lemma remembering_callbacks_never_fail_witness :
  recordedChunks (current buffering30) = [] /\
  ~ fails (stopRemembering (current buffering30) buffering30) /\
  size (new_Blob (recordedChunks (current buffering30)) webm_opus) = 0.
Proof.
  destruct (remembering_callbacks_never_fail (current buffering30) 0
              buffering30) as (_ & _ & _ & Hstop & Hempty).
  split; [reflexivity|]. split; [exact Hstop|]. apply Hempty. reflexivity.
Defined.

(** ** Extraction from an empty buffer (C8) *)

(** C8, as stated, fails: on a hook that was never started, whose buffer
    is empty, the promise of [triggerRecording] is resolved, with an empty
    blob. *)
Lemma triggerRecording_resolves_on_empty_buffer :
  isBuffering (current (useAudioBuffer 30)) = false /\
  bufferRef (useAudioBuffer 30) = [] /\
  fst (triggerRecording (current (useAudioBuffer 30)) 5000 (useAudioBuffer 30))
  = Resolved (mkBlob [] webm_opus) /\
  ~ rejects (fst (triggerRecording (current (useAudioBuffer 30)) 5000
                    (useAudioBuffer 30))).
Proof.
  repeat split. intros [e He]. discriminate He.
Qed.

(** C8, amended.  [triggerRecording] never fails: its promise is always
    resolved, with the concatenation, in buffer order, of the chunks whose
    timestamp lies in [now - 1000 * bufferSize, now]; when the buffer is
    empty (or the hook was never started) that is the empty blob, of size
    0. *)
Theorem triggerRecording_always_resolves
    (state : AudioBufferState) (now : Z) (h : Hook) :
  fst (triggerRecording state now h) =
    Resolved (new_Blob (map blob (relevantChunks state now h)) webm_opus) /\
  ~ rejects (fst (triggerRecording state now h)) /\
  relevantChunks state now h =
    filter (in_range (now - bufferSize state * 1000) now) (bufferRef h) /\
  (forall c, In c (relevantChunks state now h) <->
             In c (bufferRef h) /\
             now - 1000 * bufferSize state <= timestamp c <= now) /\
  (bufferRef h = [] ->
   fst (triggerRecording state now h) = Resolved (mkBlob [] webm_opus) /\
   size (new_Blob (map blob (relevantChunks state now h)) webm_opus) = 0) /\
  bufferRef (snd (triggerRecording state now h)) = bufferRef h.
Proof.
  split; [reflexivity|].
  split; [intros [e He]; discriminate He|].
  split; [reflexivity|].
  split; [intros c; apply relevantChunks_spec|].
  split; [|reflexivity].
  intros Hempty. unfold triggerRecording, relevantChunks.
  rewrite Hempty. split; reflexivity.
Qed.

Lemma triggerRecording_always_resolves_witness :
  bufferRef (useAudioBuffer 30) = [] /\
  fst (triggerRecording (current (useAudioBuffer 30)) 5000 (useAudioBuffer 30))
  = Resolved (mkBlob [] webm_opus).
Proof.
  destruct (triggerRecording_always_resolves (current (useAudioBuffer 30))
              5000 (useAudioBuffer 30)) as (_ & _ & _ & _ & Hempty & _).
  split; [reflexivity|]. apply Hempty. reflexivity.
Defined.

(** ** The effects of the mounted hook *)

Lemma run_app events1 events2 h :
  run (events1 ++ events2) h = run events2 (run events1 h).
Proof. unfold run. apply fold_left_app. Qed.

Lemma demoTicks_app ticks1 ticks2 :
  demoTicks (ticks1 ++ ticks2) = demoTicks ticks1 ++ demoTicks ticks2.
Proof. unfold demoTicks. apply map_app. Qed.

Lemma stopRecorder_fields h :
  current (stopRecorder h) = current h /\
  bufferRef (stopRecorder h) = bufferRef h /\
  intervalRef (stopRecorder h) = intervalRef h.
Proof.
  unfold stopRecorder. destruct (mediaRecorderRef h) as [r|]; [|repeat split].
  destruct (recorderState r); repeat split.
Qed.

Lemma stopRecorder_not_recording h r :
  mediaRecorderRef (stopRecorder h) = Some r -> recorderState r <> recording.
Proof.
  unfold stopRecorder. destruct (mediaRecorderRef h) as [r0|] eqn:E.
  - destruct (recorderState r0) eqn:Er; simpl.
    + intros H. injection H as <-. discriminate.
    + rewrite E. intros H. injection H as <-. rewrite Er. discriminate.
    + rewrite E. intros H. injection H as <-. rewrite Er. discriminate.
  - rewrite E. discriminate.
Qed.

Lemma stopRecorder_at_rest h :
  (forall r, mediaRecorderRef h = Some r -> recorderState r <> recording) ->
  stopRecorder h = h.
Proof.
  unfold stopRecorder. intros H. destruct (mediaRecorderRef h) as [r|];
    [|reflexivity].
  specialize (H r eq_refl). destruct (recorderState r); congruence.
Qed.

Lemma stopBuffering_fields state h :
  current (stopBuffering state h) = with_isBuffering false (current h) /\
  bufferRef (stopBuffering state h) = bufferRef h /\
  intervalRef (stopBuffering state h) = None /\
  mediaRecorderRef (stopBuffering state h) = mediaRecorderRef (stopRecorder h).
Proof.
  unfold stopBuffering.
  destruct (isBuffering state).
  - destruct (stopRecorder_fields h) as (Hc & Hb & _).
    assert (E : stopRecorder (clearInterval (stopRecorder h)) =
                clearInterval (stopRecorder h)).
    { apply stopRecorder_at_rest. intros r Hr.
      apply (stopRecorder_not_recording h). exact Hr. }
    rewrite E. simpl. rewrite Hc, Hb. repeat split.
  - unfold stopRecorder. simpl.
    destruct (mediaRecorderRef h) as [r|]; [|repeat split].
    destruct (recorderState r); simpl; repeat split.
Qed.

Lemma stopBuffering_at_rest state h : at_rest (stopBuffering state h).
Proof.
  destruct (stopBuffering_fields state h) as (Hc & _ & Hi & Hr).
  split; [rewrite Hc; reflexivity|]. split; [exact Hi|].
  intros r E. rewrite Hr in E. apply (stopRecorder_not_recording h r E).
Qed.

(** A hook at rest is left as it is by [stopBuffering]: stopping twice is
    stopping once. *)
Lemma stopBuffering_of_at_rest state h :
  at_rest h -> bufferRef (stopBuffering state h) = bufferRef h /\
               mediaRecorderRef (stopBuffering state h) = mediaRecorderRef h /\
               intervalRef (stopBuffering state h) = intervalRef h /\
               current (stopBuffering state h) = with_isBuffering false (current h).
Proof.
  intros (_ & Hi & Hr).
  destruct (stopBuffering_fields state h) as (Hc & Hb & Hi' & Hr').
  rewrite (stopRecorder_at_rest h Hr) in Hr'.
  repeat split; try assumption. congruence.
Qed.

Lemma rerender_same rendered h :
  isBuffering rendered = isBuffering (current h) -> rerender rendered h = h.
Proof.
  intros E. unfold rerender, cleanupEffect.
  rewrite E, !Bool.eqb_reflx. reflexivity.
Qed.

(** After an event that set [isBuffering], two cleanups run: that of the
    render before the event, then that of the render of the new state. *)
Lemma rerender_started rendered h :
  isBuffering rendered = false -> isBuffering (current h) = true ->
  rerender rendered h = stopBuffering (current h) (stopBuffering rendered h).
Proof.
  intros E1 E2. unfold rerender, cleanupEffect. rewrite E1, E2.
  change (Bool.eqb false true) with false. cbv iota.
  destruct (stopBuffering_fields rendered h) as (Hc & _). rewrite Hc.
  reflexivity.
Qed.

Lemma rerender_fields rendered h :
  bufferRef (rerender rendered h) = bufferRef h /\
  (current (rerender rendered h) = current h \/
   current (rerender rendered h) = with_isBuffering false (current h)).
Proof.
  unfold rerender, cleanupEffect.
  destruct (Bool.eqb (isBuffering rendered) (isBuffering (current h))).
  - rewrite Bool.eqb_reflx. split; [reflexivity|left; reflexivity].
  - destruct (stopBuffering_fields rendered h) as (Hc & Hb & _).
    destruct (Bool.eqb _ _).
    + split; [exact Hb|right; exact Hc].
    + destruct (stopBuffering_fields (current h) (stopBuffering rendered h))
        as (Hc' & Hb' & _).
      split; [congruence|]. right. rewrite Hc', Hc. reflexivity.
Qed.

Lemma rerender_current_fields rendered h :
  bufferSize (current (rerender rendered h)) = bufferSize (current h) /\
  recordedChunks (current (rerender rendered h)) = recordedChunks (current h) /\
  isRemembering (current (rerender rendered h)) = isRemembering (current h) /\
  bufferStartTime (current (rerender rendered h)) = bufferStartTime (current h).
Proof.
  destruct (rerender_fields rendered h) as [_ [-> | ->]]; repeat split.
Qed.

Lemma step_bufferRef h e : bufferRef (step h e) = bufferRef (handle h e).
Proof. apply rerender_fields. Qed.

(** An event that leaves [isBuffering] as it was is followed by no
    cleanup. *)
Lemma step_quiet h e :
  isBuffering (current (handle h e)) = isBuffering (current h) ->
  step h e = handle h e.
Proof. intros E. apply rerender_same. symmetry. exact E. Qed.

Lemma handle_DataAvailable h data now :
  current (handle h (DataAvailable data now)) = current h /\
  bufferRef (handle h (DataAvailable data now)) = bufferRef h \/
  0 < size data /\ ingested_in h (handle h (DataAvailable data now)) data now.
Proof.
  simpl. destruct (mediaRecorderRef h) as [r|]; [|left; split; reflexivity].
  unfold ondataavailable.
  destruct (recorderState r).
  - destruct (intervalRef h) as [[|closure]|]; try (left; split; reflexivity).
    destruct (0 <? size data) eqn:E; [|left; split; reflexivity].
    right. split; [apply Z.ltb_lt; exact E|].
    exists (handlerState r). split; reflexivity.
  - destruct (0 <? size data) eqn:E; [|left; split; reflexivity].
    right. split; [apply Z.ltb_lt; exact E|].
    exists (handlerState r). split; reflexivity.
  - left. split; reflexivity.
Qed.

Lemma handle_IntervalTick h buffer now :
  handle h (IntervalTick buffer now) = h \/
  ingested_in h (handle h (IntervalTick buffer now)) (mkBlob buffer webm_opus)
              now.
Proof.
  simpl. destruct (intervalRef h) as [[|closure]|]; try (left; reflexivity).
  right. exists closure. split; reflexivity.
Qed.

Lemma startBuffering_keeps (state : AudioBufferState) browser now h h' :
  startBuffering state browser now h = Normal h' ->
  bufferRef h' = bufferRef h /\
  current h' = with_buffering true now (current h).
Proof.
  unfold startBuffering, acquire, startDemoMode.
  destruct (is_denied (permissionState browser)).
  - intros H. injection H as <-. split; reflexivity.
  - destruct (getUserMedia browser); [destruct (newMediaRecorder browser)|];
      intros H; injection H as <-; split; reflexivity.
Qed.

Lemma startBuffering_returns (state : AudioBufferState) browser now h :
  exists h', startBuffering state browser now h = Normal h'.
Proof.
  unfold startBuffering, acquire, startDemoMode.
  destruct (is_denied (permissionState browser)); [eexists; reflexivity|].
  destruct (getUserMedia browser); [destruct (newMediaRecorder browser)|];
    eexists; reflexivity.
Qed.

Lemma startBuffering_falls_back state browser now h :
  acquisition_fails browser ->
  startBuffering state browser now h = startDemoMode state now h.
Proof.
  unfold acquisition_fails, startBuffering, acquire.
  intros [Hp | [[e He] | [e He]]].
  - rewrite Hp. reflexivity.
  - rewrite He. destruct (is_denied (permissionState browser)); reflexivity.
  - rewrite He. destruct (is_denied (permissionState browser)); [reflexivity|].
    destruct (getUserMedia browser); reflexivity.
Qed.

Lemma acquires_false browser :
  acquires browser = false <-> acquisition_fails browser.
Proof.
  unfold acquires, acquisition_fails, fails. split.
  - destruct (permissionState browser); simpl; auto;
      destruct (getUserMedia browser) as [v|e]; simpl;
      try (intros _; right; left; exists e; reflexivity);
      destruct (newMediaRecorder browser) as [v'|e']; simpl;
      try discriminate;
      intros _; right; right; exists e'; reflexivity.
  - intros [Hp | [[e He] | [e He]]].
    + rewrite Hp. reflexivity.
    + rewrite He. apply andb_false_intro1. apply andb_false_r.
    + rewrite He. apply andb_false_r.
Qed.

Lemma startBuffering_acquires state browser now h :
  acquires browser = true ->
  startBuffering state browser now h =
  Normal {| current := with_buffering true now (current h);
            bufferRef := bufferRef h;
            mediaRecorderRef :=
              Some {| handlerState := state; recorderState := recording |};
            intervalRef := Some RequestDataTimer |}.
Proof.
  unfold acquires, startBuffering, acquire. intros H.
  apply andb_true_iff in H. destruct H as [H Hn].
  apply andb_true_iff in H. destruct H as [Hp Hg].
  apply negb_true_iff in Hp. rewrite Hp.
  destruct (getUserMedia browser); [|discriminate].
  destruct (newMediaRecorder browser); [|discriminate].
  reflexivity.
Qed.

(** What [startBuffering] leaves of a hook at rest once the effects have
    run. *)
Lemma step_CallStartBuffering browser now h :
  at_rest h ->
  current (step h (CallStartBuffering browser now)) =
    with_buffering false now (current h) /\
  bufferRef (step h (CallStartBuffering browser now)) = bufferRef h /\
  intervalRef (step h (CallStartBuffering browser now)) = None /\
  mediaRecorderRef (step h (CallStartBuffering browser now)) =
    if acquires browser
    then Some {| handlerState := current h; recorderState := stopping |}
    else mediaRecorderRef h.
Proof.
  intros (Hb & Hi & Hr). unfold step.
  assert (Hhandle : exists h',
            handle h (CallStartBuffering browser now) = h' /\
            startBuffering (current h) browser now h = Normal h').
  { simpl. destruct (startBuffering_returns (current h) browser now h)
      as [h' E]. rewrite E. exists h'. split; reflexivity. }
  destruct Hhandle as (h' & -> & E).
  destruct (startBuffering_keeps _ _ _ _ _ E) as [Hbuf Hcur].
  rewrite rerender_started; [|exact Hb|rewrite Hcur; reflexivity].
  destruct (stopBuffering_at_rest (current h) h') as (_ & _ & Hr1).
  destruct (stopBuffering_of_at_rest (current h')
              (stopBuffering (current h) h')
              (stopBuffering_at_rest (current h) h'))
    as (Hb2 & Hm2 & Hi2 & Hc2).
  destruct (stopBuffering_fields (current h) h') as (Hc1 & Hb1 & Hi1 & Hm1).
  rewrite Hc2, Hc1, Hb2, Hb1, Hi2, Hi1, Hm2, Hm1, Hcur, Hbuf.
  split; [reflexivity|]. split; [reflexivity|]. split; [reflexivity|].
  destruct (acquires browser) eqn:Ea.
  - rewrite (startBuffering_acquires _ _ _ _ Ea) in E.
    injection E as <-. reflexivity.
  - apply acquires_false in Ea.
    rewrite (startBuffering_falls_back _ _ _ _ Ea) in E.
    unfold startDemoMode in E. injection E as <-.
    rewrite stopRecorder_at_rest; [reflexivity|].
    simpl. exact Hr.
Qed.

(** Every event leaves a hook at rest at rest. *)
Lemma step_at_rest h e : at_rest h -> at_rest (step h e).
Proof.
  intros Hrest. pose proof Hrest as (Hb & Hi & Hr).
  destruct e as [data now|buffer now|browser now| |now| |n now|now].
  - assert (Hq : isBuffering (current (handle h (DataAvailable data now)))
                 = isBuffering (current h)).
    { destruct (handle_DataAvailable h data now) as [[-> _]|[_ (s & -> & _)]];
        [reflexivity|]. apply ingest_current_fields. }
    rewrite (step_quiet _ _ Hq).
    split; [rewrite Hq; exact Hb|].
    simpl. destruct (mediaRecorderRef h) as [r|] eqn:Em;
      [|split; [exact Hi|]; intros r E; rewrite Em in E; discriminate].
    specialize (Hr r eq_refl).
    destruct (recorderState r) eqn:Er; [congruence| |].
    + split.
      * simpl. unfold ondataavailable.
        destruct (0 <? size data); [|exact Hi].
        destruct (ingest_refs (handlerState r) data now h) as [_ ->].
        exact Hi.
      * simpl. intros r' E. injection E as <-. discriminate.
    + split; [exact Hi|]. intros r' E. rewrite Em in E.
      injection E as <-. rewrite Er. exact Hr.
  - assert (Hq : handle h (IntervalTick buffer now) = h).
    { simpl. rewrite Hi. reflexivity. }
    rewrite step_quiet; rewrite Hq; [exact Hrest|reflexivity].
  - destruct (step_CallStartBuffering browser now h Hrest)
      as (Hc & _ & Hi' & Hm).
    split; [rewrite Hc; reflexivity|]. split; [exact Hi'|].
    intros r E. rewrite Hm in E. destruct (acquires browser).
    + injection E as <-. discriminate.
    + apply Hr. exact E.
  - unfold step.
    change (handle h CallStopBuffering) with (stopBuffering (current h) h).
    rewrite rerender_same; [apply stopBuffering_at_rest|].
    destruct (stopBuffering_fields (current h) h) as (-> & _). exact Hb.
  - rewrite step_quiet; [|reflexivity].
    split; [exact Hb|]. split; [exact Hi|exact Hr].
  - rewrite step_quiet; [|reflexivity].
    split; [exact Hb|]. split; [exact Hi|exact Hr].
  - rewrite step_quiet; [|reflexivity].
    split; [exact Hb|]. split; [exact Hi|exact Hr].
  - rewrite step_quiet; [|reflexivity].
    split; [exact Hb|]. split; [exact Hi|exact Hr].
Qed.

Lemma useAudioBuffer_at_rest bufferSize0 : at_rest (useAudioBuffer bufferSize0).
Proof. repeat split. intros r E. discriminate E. Qed.


(** At mount the [[bufferSize]] effect writes the value the state already
    has. *)
Lemma bufferSizeEffect_at_mount bufferSize0 :
  bufferSizeEffect bufferSize0 (useAudioBuffer bufferSize0)
  = useAudioBuffer bufferSize0.
Proof. reflexivity. Qed.

(** The ticks of a generator whose interval is cleared reach nothing. *)
Lemma run_demoTicks_cleared ticks h :
  intervalRef h = None -> run (demoTicks ticks) h = h.
Proof.
  intros Hi. induction ticks as [|[samples t] ticks IH]; [reflexivity|].
  change (run (demoTicks ((samples, t) :: ticks)) h)
    with (run (demoTicks ticks) (step h (IntervalTick samples t))).
  assert (Hq : handle h (IntervalTick samples t) = h).
  { simpl. rewrite Hi. reflexivity. }
  rewrite step_quiet; rewrite Hq; [exact IH|reflexivity].
Qed.

(** On the mounted hook the only data a recorder delivers are its last,
    and its handler is closed over the state of the render that called
    [startBuffering]: when they arrive before anything else is called, the
    window they are evicted with is the current one, and they are recorded
    exactly when the hook is remembering. *)
Lemma last_data_meet_the_latest_state browser now data t h :
  at_rest h -> acquires browser = true -> 0 < size data ->
  bufferRef (run [CallStartBuffering browser now; DataAvailable data t] h) =
    filter (newer_than
              (t - bufferSize
                     (current (run [CallStartBuffering browser now;
                                    DataAvailable data t] h)) * 1000))
           (bufferRef h ++ [mkChunk data t]) /\
  recordedChunks
    (current (run [CallStartBuffering browser now; DataAvailable data t] h)) =
    (if isRemembering (current h) then recordedChunks (current h) ++ [data]
     else recordedChunks (current h)).
Proof.
  intros Hrest Hmic Hsize.
  change (run [CallStartBuffering browser now; DataAvailable data t] h)
    with (step (step h (CallStartBuffering browser now))
               (DataAvailable data t)).
  destruct (step_CallStartBuffering browser now h Hrest)
    as (Hc & Hb & _ & Hm).
  rewrite Hmic in Hm.
  set (h1 := step h (CallStartBuffering browser now)) in *.
  assert (Hh : handle h1 (DataAvailable data t) =
               set_mediaRecorderRef
                 (Some {| handlerState := current h;
                          recorderState := inactive |})
                 (ingest (current h) data t h1)).
  { simpl. rewrite Hm. simpl. unfold ondataavailable.
    apply Z.ltb_lt in Hsize. rewrite Hsize. reflexivity. }
  assert (Hq : step h1 (DataAvailable data t) =
               handle h1 (DataAvailable data t)).
  { apply step_quiet. rewrite Hh. unfold set_mediaRecorderRef.
    cbn [current]. apply ingest_current_fields. }
  rewrite Hq, Hh. unfold set_mediaRecorderRef.
  cbn [current bufferRef].
  rewrite ingest_bufferSize, ingest_bufferRef, ingest_recordedChunks.
  rewrite Hb, Hc. split; reflexivity.
Qed.

(** ** Falling back to demo mode (C9) *)

(** C9.  When the acquisition fails (permission denied, [getUserMedia]
    rejected for whatever reason, or no recorder), [startBuffering] does
    fall back: it returns normally, with [isBuffering] set and the demo
    generator installed.  On the mounted hook the update of [isBuffering]
    re-creates [stopBuffering], and the cleanup of the effect that is
    meant for the unmount runs the previous one: the interval of the
    generator is cleared before its first tick and [isBuffering] is
    reset.  No synthetic chunk is ever buffered, and an extraction made
    afterwards on a hook whose buffer was empty is resolved with the
    empty blob. *)
Theorem demo_fallback_is_cleared_before_it_generates
    (browser : Browser) (now : Z) (h : Hook)
    (ticks : list (list byte * Z)) (t : Z)
    (Hfail : acquisition_fails browser)
    (Hrest : at_rest h) :
  (exists h',
     startBuffering (current h) browser now h = Normal h' /\
     isBuffering (current h') = true /\
     intervalRef h' = Some (DemoTimer (current h))) /\
  isBuffering (current (step h (CallStartBuffering browser now))) = false /\
  intervalRef (step h (CallStartBuffering browser now)) = None /\
  run (demoTicks ticks) (step h (CallStartBuffering browser now)) =
    step h (CallStartBuffering browser now) /\
  bufferRef (run (CallStartBuffering browser now :: demoTicks ticks) h) =
    bufferRef h /\
  (bufferRef h = [] ->
   fst (triggerRecording
          (current (run (CallStartBuffering browser now :: demoTicks ticks) h))
          t (run (CallStartBuffering browser now :: demoTicks ticks) h))
   = Resolved (mkBlob [] webm_opus) /\
   size (mkBlob [] webm_opus) = 0).
Proof.
  destruct (step_CallStartBuffering browser now h Hrest)
    as (Hc & Hb & Hi & _).
  split.
  { rewrite (startBuffering_falls_back _ _ _ _ Hfail). unfold startDemoMode.
    eexists. split; [reflexivity|]. split; reflexivity. }
  split; [rewrite Hc; reflexivity|]. split; [exact Hi|].
  assert (Hrun : run (demoTicks ticks) (step h (CallStartBuffering browser now))
                 = step h (CallStartBuffering browser now))
    by (apply run_demoTicks_cleared; exact Hi).
  split; [exact Hrun|].
  change (run (CallStartBuffering browser now :: demoTicks ticks) h)
    with (run (demoTicks ticks) (step h (CallStartBuffering browser now))).
  rewrite Hrun. split; [exact Hb|].
  intros Hempty. split; [|reflexivity].
  unfold triggerRecording, relevantChunks. rewrite Hb, Hempty. reflexivity.
Qed.

Lemma demo_fallback_is_cleared_before_it_generates_witness :
  acquisition_fails permissionDenied /\
  at_rest (useAudioBuffer 30) /\
  bufferRef (run (CallStartBuffering permissionDenied 0
                  :: demoTicks [([x01], 1000); ([x02], 2000)])
                 (useAudioBuffer 30)) = [] /\
  fst (triggerRecording
         (current (run (CallStartBuffering permissionDenied 0
                        :: demoTicks [([x01], 1000); ([x02], 2000)])
                       (useAudioBuffer 30)))
         2500
         (run (CallStartBuffering permissionDenied 0
               :: demoTicks [([x01], 1000); ([x02], 2000)])
              (useAudioBuffer 30)))
  = Resolved (mkBlob [] webm_opus).
Proof.
  assert (H1 : acquisition_fails permissionDenied) by (left; reflexivity).
  assert (H2 : at_rest (useAudioBuffer 30)) by apply useAudioBuffer_at_rest.
  destruct (demo_fallback_is_cleared_before_it_generates permissionDenied 0
              (useAudioBuffer 30) [([x01], 1000); ([x02], 2000)] 2500 H1 H2)
    as (_ & _ & _ & _ & Hbuf & Htrigger).
  split; [exact H1|]. split; [exact H2|]. split; [exact Hbuf|].
  apply Htrigger. reflexivity.
Defined.

(** ** The sound trigger (C3) *)

Lemma fired_spec (soundDetection : SoundDetection) (volume : Q) (now : Z) :
  fired soundDetection volume now = true <->
  (threshold soundDetection < volume)%Q /\
  now - lastTrigger soundDetection > cooldown soundDetection.
Proof.
  unfold fired, Qgtb. rewrite andb_true_iff, negb_true_iff, Z.ltb_lt.
  split; intros [H1 H2]; split; try lia.
  - apply Qnot_le_lt. intros Hle. apply Qle_bool_iff in Hle. congruence.
  - destruct (Qle_bool volume (threshold soundDetection)) eqn:E; [|reflexivity].
    apply Qle_bool_iff in E. exfalso. apply (Qlt_not_le _ _ H1 E).
Qed.

(** A frame that passes the test writes [now] into the latest
    [lastTrigger]; a frame that does not leaves the detector as it was. *)
Lemma detectSound_frame_lastTrigger soundDetection soundTriggers buffering
    dataArray now d :
  (fired soundDetection (volumePercent dataArray) now = true ->
   lastTrigger (soundDetection_current
     (detectSound_frame soundDetection soundTriggers buffering dataArray now d))
   = now) /\
  (fired soundDetection (volumePercent dataArray) now = false ->
   detectSound_frame soundDetection soundTriggers buffering dataArray now d = d).
Proof.
  unfold detectSound_frame. split; intros ->; [|reflexivity].
  destruct (0 <? _); [destruct buffering|]; reflexivity.
Qed.




(** * Further properties of the buffer hook *)

Lemma span_nonneg (l : list Chunk) : in_timestamp_order l -> 0 <= span l.
Proof.
  intros Hs. destruct l as [|a l]; [simpl; lia|].
  unfold span. pose proof (sorted_head_min a l _ Hs (last_In a l a)). lia.
Qed.

Lemma Qdiv_nonneg (a b : Q) : (0 <= a)%Q -> (0 < b)%Q -> (0 <= a / b)%Q.
Proof.
  intros Ha Hb. unfold Qdiv. apply Qmult_le_0_compat; [exact Ha|].
  apply Qinv_le_0_compat. apply Qlt_le_weak. exact Hb.
Qed.

Lemma getBufferDuration_nonneg h :
  in_timestamp_order (bufferRef h) -> (0 <= getBufferDuration h)%Q.
Proof.
  intros Hs. rewrite getBufferDuration_span.
  apply Qdiv_nonneg; [|reflexivity].
  change 0%Q with (inject_Z 0). rewrite <- Zle_Qle. apply span_nonneg. exact Hs.
Qed.

(** [getBufferFill] is a percentage: on a buffer in timestamp order and
    with a positive window it lies between 0 and 100. *)
Theorem getBufferFill_between_0_and_100 (state : AudioBufferState) (h : Hook)
    (Horder : in_timestamp_order (bufferRef h))
    (Hwindow : 0 < bufferSize state) :
  (0 <= getBufferFill state h)%Q /\ (getBufferFill state h <= 100)%Q.
Proof.
  unfold getBufferFill. split; [|apply Q.le_min_l].
  apply Q.min_glb; [discriminate|].
  apply Qmult_le_0_compat; [|discriminate].
  apply Qdiv_nonneg; [apply getBufferDuration_nonneg; exact Horder|].
  change 0%Q with (inject_Z 0). rewrite <- Zlt_Qlt. exact Hwindow.
Qed.

Lemma getBufferFill_between_0_and_100_witness :
  in_timestamp_order (bufferRef sixtySecondsIn100) /\
  0 < bufferSize (current sixtySecondsIn100) /\
  (0 <= getBufferFill (current sixtySecondsIn100) sixtySecondsIn100)%Q /\
  (getBufferFill (current sixtySecondsIn100) sixtySecondsIn100 <= 100)%Q.
Proof.
  assert (Horder : in_timestamp_order (bufferRef sixtySecondsIn100)).
  { unfold in_timestamp_order.
    let l := eval vm_compute in (map timestamp (bufferRef sixtySecondsIn100)) in
    change (StronglySorted Z.le l).
    repeat (constructor; try lia). }
  assert (Hwindow : 0 < bufferSize (current sixtySecondsIn100)) by reflexivity.
  split; [exact Horder|]. split; [exact Hwindow|].
  exact (getBufferFill_between_0_and_100 (current sixtySecondsIn100)
           sixtySecondsIn100 Horder Hwindow).
Defined.

Lemma ingest_span_below_window (state : AudioBufferState) data now h :
  (forall c, In c (bufferRef h) -> timestamp c <= now) ->
  0 < bufferSize state ->
  span (bufferRef (ingest state data now h)) < bufferSize state * 1000.
Proof.
  intros Hle Hw.
  destruct (bufferRef (ingest state data now h)) as [|f r] eqn:E; [simpl; lia|].
  assert (Hin : forall c, In c (f :: r) ->
                  now - 1000 * bufferSize state < timestamp c <= now).
  { intros c Hc. rewrite <- E in Hc. apply ingest_retains in Hc.
    destruct Hc as [Hc Hlow]. split; [exact Hlow|].
    apply in_app_or in Hc. destruct Hc as [Hc|[<-|[]]]; [apply Hle; exact Hc|].
    simpl. lia. }
  unfold span.
  pose proof (Hin _ (last_In f r f)). pose proof (Hin f (or_introl eq_refl)).
  lia.
Qed.

Lemma duration_below (s w : Z) :
  s < w * 1000 -> (inject_Z s / 1000 < inject_Z w)%Q.
Proof.
  intros H. apply Qlt_shift_div_r; [reflexivity|].
  change 1000%Q with (inject_Z 1000). rewrite <- inject_Z_mult, <- Zlt_Qlt.
  exact H.
Qed.

(** Right after an ingestion by a callback whose render has the current
    [bufferSize], the buffered duration is strictly below the window, so
    the fill the latest render computes is strictly below 100 %: the
    buffer never reads as full.  The clock is assumed not to have gone
    back. *)
Theorem fill_below_100_after_ingestion
    (state : AudioBufferState) (data : Blob) (buffer : list byte) (now : Z)
    (h : Hook)
    (Hsize : 0 < size data)
    (Hclock : forall c, In c (bufferRef h) -> timestamp c <= now)
    (Hwindow : 0 < bufferSize state)
    (Hlatest : bufferSize state = bufferSize (current h)) :
  (getBufferDuration (ondataavailable state data now h)
     < inject_Z (bufferSize (current (ondataavailable state data now h))))%Q /\
  (getBufferFill (current (ondataavailable state data now h))
                 (ondataavailable state data now h) < 100)%Q /\
  (getBufferDuration (demoTick state buffer now h)
     < inject_Z (bufferSize (current (demoTick state buffer now h))))%Q /\
  (getBufferFill (current (demoTick state buffer now h))
                 (demoTick state buffer now h) < 100)%Q.
Proof.
  assert (Hgen : forall d,
    (getBufferDuration (ingest state d now h)
       < inject_Z (bufferSize (current (ingest state d now h))))%Q /\
    (getBufferFill (current (ingest state d now h)) (ingest state d now h)
       < 100)%Q).
  { intros d. unfold getBufferFill. rewrite ingest_bufferSize, <- Hlatest.
    assert (Hdur : (getBufferDuration (ingest state d now h)
                    < inject_Z (bufferSize state))%Q).
    { rewrite getBufferDuration_span. apply duration_below.
      apply ingest_span_below_window; assumption. }
    split; [exact Hdur|].
    apply Qle_lt_trans with
      (getBufferDuration (ingest state d now h) / inject_Z (bufferSize state)
       * 100)%Q; [apply Q.le_min_r|].
    assert (Hpos : (0 < inject_Z (bufferSize state))%Q).
    { change 0%Q with (inject_Z 0). rewrite <- Zlt_Qlt. exact Hwindow. }
    setoid_replace 100%Q with (1 * 100)%Q at 2 by reflexivity.
    apply Qmult_lt_r; [reflexivity|].
    apply Qlt_shift_div_r; [exact Hpos|].
    rewrite Qmult_1_l. exact Hdur. }
  assert (Hon : ondataavailable state data now h = ingest state data now h).
  { unfold ondataavailable. apply Z.ltb_lt in Hsize. rewrite Hsize. reflexivity. }
  rewrite Hon. unfold demoTick.
  destruct (Hgen data) as [H1 H2].
  destruct (Hgen (mkBlob buffer webm_opus)) as [H3 H4].
  repeat split; assumption.
Qed.

Lemma fill_below_100_after_ingestion_witness :
  0 < size (payload 46) /\
  (forall c, In c (bufferRef after45seconds) -> timestamp c <= 46000) /\
  0 < bufferSize (current after45seconds) /\
  (getBufferFill
     (current (ondataavailable (current after45seconds) (payload 46) 46000
                 after45seconds))
     (ondataavailable (current after45seconds) (payload 46) 46000
        after45seconds) < 100)%Q.
Proof.
  assert (H1 : 0 < size (payload 46)) by reflexivity.
  assert (H2 : forall c, In c (bufferRef after45seconds) ->
                         timestamp c <= 46000).
  { intros c Hc. apply (in_map timestamp) in Hc.
    remember (timestamp c) as t eqn:Et. clear Et.
    vm_compute in Hc.
    repeat (destruct Hc as [Hc|Hc]; [rewrite <- Hc; discriminate|]).
    destruct Hc. }
  assert (H3 : 0 < bufferSize (current after45seconds)) by reflexivity.
  destruct (fill_below_100_after_ingestion (current after45seconds)
              (payload 46) [x00] 46000 after45seconds H1 H2 H3 eq_refl)
    as (_ & Hfill & _ & _).
  repeat split; assumption.
Defined.

(** ** Invariants along any run of events *)

Lemma step_bufferRef_other h e :
  ~ is_ingestion e ->
  (forall n now, e <> CallUpdateBufferSize n now) ->
  bufferRef (step h e) = bufferRef h.
Proof.
  rewrite step_bufferRef.
  destruct e as [data now|buffer now|browser now| |now| |n now|now];
    simpl; intros Hi Hu; try tauto; try reflexivity.
  - destruct (startBuffering_returns (current h) browser now h) as [h' E].
    rewrite E. apply (startBuffering_keeps _ _ _ _ _ E).
  - apply (stopBuffering_fields (current h) h).
  - exfalso. apply (Hu n now). reflexivity.
Qed.

Lemma step_bufferSize h e :
  match e with
  | CallUpdateBufferSize n _ =>
    bufferSize (current (step h e)) = clampedSize n
  | _ => bufferSize (current (step h e)) = bufferSize (current h)
  end.
Proof.
  assert (Hre : bufferSize (current (step h e)) =
                bufferSize (current (handle h e)))
    by apply rerender_current_fields.
  destruct e as [data now|buffer now|browser now| |now| |n now|now];
    rewrite Hre; try reflexivity.
  - destruct (handle_DataAvailable h data now) as [[-> _]|[_ (s & -> & _)]];
      [reflexivity|apply ingest_bufferSize].
  - destruct (handle_IntervalTick h buffer now) as [->|(s & -> & _)];
      [reflexivity|apply ingest_bufferSize].
  - simpl.
    destruct (startBuffering_returns (current h) browser now h) as [h' E].
    rewrite E. destruct (startBuffering_keeps _ _ _ _ _ E) as [_ ->].
    reflexivity.
  - change (handle h CallStopBuffering) with (stopBuffering (current h) h).
    destruct (stopBuffering_fields (current h) h) as (-> & _).
    reflexivity.
Qed.

(** No callback of the hook moves [bufferSize] out of [30, 3000]: once it
    is in range it stays there whatever the recorder, the demo generator
    and the component do next. *)
Theorem bufferSize_stays_in_range (events : list Event) (h : Hook)
    (Hrange : 30 <= bufferSize (current h) <= 3000) :
  30 <= bufferSize (current (run events h)) <= 3000.
Proof.
  revert h Hrange. induction events as [|e events IH]; intros h Hrange;
    [exact Hrange|].
  change (run (e :: events) h) with (run events (step h e)).
  apply IH. pose proof (step_bufferSize h e) as Hs.
  destruct e; try (rewrite Hs; exact Hrange).
  rewrite Hs. apply clampedSize_range.
Qed.

Lemma bufferSize_stays_in_range_witness :
  30 <= bufferSize (current (useAudioBuffer 30)) <= 3000 /\
  30 <= bufferSize (current
          (run [CallStartBuffering permissionDenied 0; IntervalTick [x01] 1000;
                CallUpdateBufferSize 99999 1500; CallStartRemembering 2000;
                CallUpdateBufferSize (-5) 2500; CallStopRemembering;
                CallStopBuffering]
               (useAudioBuffer 30))) <= 3000.
Proof.
  assert (H : 30 <= bufferSize (current (useAudioBuffer 30)) <= 3000)
    by (split; discriminate).
  split; [exact H|].
  exact (bufferSize_stays_in_range
           [CallStartBuffering permissionDenied 0; IntervalTick [x01] 1000;
            CallUpdateBufferSize 99999 1500; CallStartRemembering 2000;
            CallUpdateBufferSize (-5) 2500; CallStopRemembering;
            CallStopBuffering]
           (useAudioBuffer 30) H).
Defined.

Lemma step_keeps_order h e t :
  in_timestamp_order (bufferRef h) ->
  (forall c, In c (bufferRef h) -> timestamp c <= t) ->
  clock_never_goes_back t [e] ->
  exists t',
    in_timestamp_order (bufferRef (step h e)) /\
    (forall c, In c (bufferRef (step h e)) -> timestamp c <= t') /\
    (forall rest, clock_never_goes_back t (e :: rest) ->
                  clock_never_goes_back t' rest).
Proof.
  intros Hs Hle Hclock.
  assert (Hingest : forall h' data now,
            t <= now -> ingested_in h h' data now ->
            in_timestamp_order (bufferRef h') /\
            (forall c, In c (bufferRef h') -> timestamp c <= now)).
  { intros h' data now Hnow (state & _ & ->).
    assert (Hle' : forall c, In c (bufferRef h) -> timestamp c <= now).
    { intros c Hc. specialize (Hle c Hc). lia. }
    split; [apply ingest_keeps_timestamp_order; assumption|].
    intros c Hc. apply ingest_retains in Hc. destruct Hc as [Hc _].
    apply in_app_or in Hc. destruct Hc as [Hc|[<-|[]]];
      [apply Hle'; exact Hc|simpl; lia]. }
  assert (Hsame : forall now, t <= now ->
            in_timestamp_order (bufferRef h) /\
            (forall c, In c (bufferRef h) -> timestamp c <= now)).
  { intros now Hnow. split; [exact Hs|].
    intros c Hc. specialize (Hle c Hc). lia. }
  destruct e as [data now|buffer now|browser now| |now| |n now|now].
  - simpl in Hclock. destruct Hclock as [Hnow _].
    exists now. rewrite step_bufferRef.
    assert (H : in_timestamp_order
                  (bufferRef (handle h (DataAvailable data now))) /\
                (forall c, In c (bufferRef (handle h (DataAvailable data now)))
                           -> timestamp c <= now)).
    { destruct (handle_DataAvailable h data now) as [[_ ->]|[_ Hin]];
        [apply Hsame; exact Hnow|apply (Hingest _ _ _ Hnow Hin)]. }
    destruct H as [H1 H2]. split; [exact H1|]. split; [exact H2|].
    intros rest [_ Hrest]. exact Hrest.
  - simpl in Hclock. destruct Hclock as [Hnow _].
    exists now. rewrite step_bufferRef.
    assert (H : in_timestamp_order
                  (bufferRef (handle h (IntervalTick buffer now))) /\
                (forall c, In c (bufferRef (handle h (IntervalTick buffer now)))
                           -> timestamp c <= now)).
    { destruct (handle_IntervalTick h buffer now) as [->|Hin];
        [apply Hsame; exact Hnow|apply (Hingest _ _ _ Hnow Hin)]. }
    destruct H as [H1 H2]. split; [exact H1|]. split; [exact H2|].
    intros rest [_ Hrest]. exact Hrest.
  - exists t. rewrite step_bufferRef_other; [|simpl; tauto|discriminate].
    split; [exact Hs|]. split; [exact Hle|]. intros rest Hrest. exact Hrest.
  - exists t. rewrite step_bufferRef_other; [|simpl; tauto|discriminate].
    split; [exact Hs|]. split; [exact Hle|]. intros rest Hrest. exact Hrest.
  - exists t. rewrite step_bufferRef_other; [|simpl; tauto|discriminate].
    split; [exact Hs|]. split; [exact Hle|]. intros rest Hrest. exact Hrest.
  - exists t. rewrite step_bufferRef_other; [|simpl; tauto|discriminate].
    split; [exact Hs|]. split; [exact Hle|]. intros rest Hrest. exact Hrest.
  - exists t. rewrite step_bufferRef. split; [|split].
    + apply updateBufferSize_keeps_timestamp_order. exact Hs.
    + intros c Hc. simpl in Hc. apply filter_In in Hc. apply Hle. tauto.
    + intros rest Hrest. exact Hrest.
  - exists t. rewrite step_bufferRef_other; [|simpl; tauto|discriminate].
    split; [exact Hs|]. split; [exact Hle|]. intros rest Hrest. exact Hrest.
Qed.

Lemma clock_never_goes_back_head t e rest :
  clock_never_goes_back t (e :: rest) -> clock_never_goes_back t [e].
Proof. destruct e; simpl; tauto. Qed.

(** As long as the clock does not go back, the buffer stays in timestamp
    order, whatever the sequence of ingestions, resizes and calls. *)
Theorem buffer_stays_in_timestamp_order (events : list Event) (h : Hook)
    (t : Z)
    (Horder : in_timestamp_order (bufferRef h))
    (Hpast : forall c, In c (bufferRef h) -> timestamp c <= t)
    (Hclock : clock_never_goes_back t events) :
  in_timestamp_order (bufferRef (run events h)).
Proof.
  revert h t Horder Hpast Hclock.
  induction events as [|e events IH]; intros h t Horder Hpast Hclock;
    [exact Horder|].
  change (run (e :: events) h) with (run events (step h e)).
  destruct (step_keeps_order h e t Horder Hpast
              (clock_never_goes_back_head t e events Hclock))
    as (t' & Ho & Hp & Hc).
  apply (IH (step h e) t' Ho Hp). apply Hc. exact Hclock.
Qed.

Lemma buffer_stays_in_timestamp_order_witness :
  in_timestamp_order (bufferRef tenSeconds) /\
  (forall c, In c (bufferRef tenSeconds) -> timestamp c <= 10000) /\
  clock_never_goes_back 10000 restartAfterTenSeconds /\
  map timestamp (bufferRef (run restartAfterTenSeconds tenSeconds)) =
    map (fun i => Z.of_nat i * 1000) (seq 1 10) ++ [10510] /\
  in_timestamp_order (bufferRef (run restartAfterTenSeconds tenSeconds)).
Proof.
  assert (H1 : in_timestamp_order (bufferRef tenSeconds)).
  { unfold in_timestamp_order.
    let l := eval vm_compute in (map timestamp (bufferRef tenSeconds)) in
    change (StronglySorted Z.le l).
    repeat (constructor; try lia). }
  assert (H2 : forall c, In c (bufferRef tenSeconds) -> timestamp c <= 10000).
  { intros c Hc. apply (in_map timestamp) in Hc.
    remember (timestamp c) as t eqn:Et. clear Et.
    vm_compute in Hc.
    repeat (destruct Hc as [Hc|Hc]; [rewrite <- Hc; discriminate|]).
    destruct Hc. }
  assert (H3 : clock_never_goes_back 10000 restartAfterTenSeconds).
  { simpl. repeat split; discriminate. }
  split; [exact H1|]. split; [exact H2|]. split; [exact H3|].
  split; [vm_compute; reflexivity|].
  exact (buffer_stays_in_timestamp_order _ _ 10000 H1 H2 H3).
Defined.

(** ** Starting, extracting, remembering: how the callbacks compose *)

(** On the mounted hook a call of [startBuffering] does not leave the hook
    buffering.  Whatever the browser answers, once the effects have run
    [isBuffering] is reset, no interval is live (neither the [requestData]
    timer nor the demo generator) and the hook is at rest again; the
    buffer, the recorded chunks and [bufferSize] are as before.  With a
    working microphone the recorder that was built, whose handler is
    closed over the state of the calling render, is stopped, its last data
    still to be delivered; otherwise the recorder of the hook is left as
    it was. *)
Theorem startBuffering_is_undone_by_the_cleanup
    (browser : Browser) (now : Z) (h : Hook)
    (Hrest : at_rest h) :
  at_rest (step h (CallStartBuffering browser now)) /\
  isBuffering (current (step h (CallStartBuffering browser now))) = false /\
  intervalRef (step h (CallStartBuffering browser now)) = None /\
  bufferStartTime (current (step h (CallStartBuffering browser now))) = now /\
  bufferRef (step h (CallStartBuffering browser now)) = bufferRef h /\
  recordedChunks (current (step h (CallStartBuffering browser now))) =
    recordedChunks (current h) /\
  bufferSize (current (step h (CallStartBuffering browser now))) =
    bufferSize (current h) /\
  (~ acquisition_fails browser ->
   mediaRecorderRef (step h (CallStartBuffering browser now)) =
     Some {| handlerState := current h; recorderState := stopping |}) /\
  (acquisition_fails browser ->
   mediaRecorderRef (step h (CallStartBuffering browser now)) =
     mediaRecorderRef h).
Proof.
  split; [apply step_at_rest; exact Hrest|].
  destruct (step_CallStartBuffering browser now h Hrest)
    as (Hc & Hb & Hi & Hm).
  rewrite Hc, Hb, Hi, Hm. repeat (split; [reflexivity|]).
  split.
  - intros Hok. destruct (acquires browser) eqn:Ea; [reflexivity|].
    exfalso. apply Hok. apply acquires_false. exact Ea.
  - intros Hfail. apply acquires_false in Hfail. rewrite Hfail. reflexivity.
Qed.

Lemma startBuffering_is_undone_by_the_cleanup_witness :
  at_rest (useAudioBuffer 30) /\
  ~ acquisition_fails microphone /\
  isBuffering (current buffering30) = false /\
  intervalRef buffering30 = None /\
  mediaRecorderRef buffering30 =
    Some {| handlerState := initialState 30; recorderState := stopping |}.
Proof.
  assert (Hrest : at_rest (useAudioBuffer 30)) by apply useAudioBuffer_at_rest.
  assert (Hok : ~ acquisition_fails microphone).
  { intros [H|[[e H]|[e H]]]; discriminate H. }
  destruct (startBuffering_is_undone_by_the_cleanup microphone 0
              (useAudioBuffer 30) Hrest)
    as (_ & Hb & Hi & _ & _ & _ & _ & Hmic & _).
  split; [exact Hrest|]. split; [exact Hok|].
  split; [exact Hb|]. split; [exact Hi|]. exact (Hmic Hok).
Defined.





Lemma size_new_Blob (parts : list Blob) type :
  size (new_Blob parts type) = total_size parts.
Proof.
  unfold size, new_Blob. simpl.
  induction parts as [|b parts IH]; [reflexivity|].
  simpl. rewrite length_app, Nat2Z.inj_add, IH. reflexivity.
Qed.

Lemma size_nonneg (b : Blob) : 0 <= size b.
Proof. unfold size. lia. Qed.

Lemma total_size_zero_iff (blobs : list Blob) :
  (forall b, In b blobs -> 0 < size b) ->
  (total_size blobs = 0 <-> blobs = []).
Proof.
  intros Hpos. split; [|intros ->; reflexivity].
  destruct blobs as [|b blobs]; [reflexivity|].
  simpl. intros H. exfalso.
  pose proof (Hpos b (or_introl eq_refl)).
  assert (0 <= total_size blobs).
  { clear. induction blobs as [|a l IH]; simpl; [lia|].
    pose proof (size_nonneg a). lia. }
  lia.
Qed.

(** The recorder never buffers an empty blob: if no buffered chunk is
    empty, none is after any run of events in which the demo generator
    hands over samples. *)
Theorem buffer_holds_no_empty_chunk (events : list Event) (h : Hook)
    (Hstart : forall c, In c (bufferRef h) -> 0 < size (blob c))
    (Hticks : Forall tick_has_samples events) :
  forall c, In c (bufferRef (run events h)) -> 0 < size (blob c).
Proof.
  revert h Hstart. induction Hticks as [|e events He _ IH]; intros h Hstart;
    [exact Hstart|].
  change (run (e :: events) h) with (run events (step h e)).
  apply IH. clear IH.
  assert (Hingest : forall h' data now,
            0 < size data -> ingested_in h h' data now ->
            forall c, In c (bufferRef h') -> 0 < size (blob c)).
  { intros h' data now Hd (state & _ & ->) c Hc. apply ingest_retains in Hc.
    destruct Hc as [Hc _]. apply in_app_or in Hc.
    destruct Hc as [Hc|[<-|[]]]; [apply Hstart; exact Hc|exact Hd]. }
  destruct e as [data now|buffer now|browser now| |now| |n now|now].
  - rewrite step_bufferRef.
    destruct (handle_DataAvailable h data now) as [[_ ->]|[Hd Hin]];
      [exact Hstart|apply (Hingest _ _ _ Hd Hin)].
  - rewrite step_bufferRef.
    destruct (handle_IntervalTick h buffer now) as [->|Hin];
      [exact Hstart|].
    apply (Hingest _ (mkBlob buffer webm_opus) now); [|exact Hin].
    simpl in He. unfold size. simpl. destruct buffer; [congruence|simpl; lia].
  - rewrite step_bufferRef_other; [exact Hstart|simpl; tauto|discriminate].
  - rewrite step_bufferRef_other; [exact Hstart|simpl; tauto|discriminate].
  - rewrite step_bufferRef_other; [exact Hstart|simpl; tauto|discriminate].
  - rewrite step_bufferRef_other; [exact Hstart|simpl; tauto|discriminate].
  - rewrite step_bufferRef. intros c Hc. simpl in Hc.
    apply filter_In in Hc. apply Hstart. tauto.
  - rewrite step_bufferRef_other; [exact Hstart|simpl; tauto|discriminate].
Qed.

Lemma buffer_holds_no_empty_chunk_witness :
  (forall c, In c (bufferRef (useAudioBuffer 30)) -> 0 < size (blob c)) /\
  Forall tick_has_samples twoStarts /\
  map blob (bufferRef (run twoStarts (useAudioBuffer 30))) = [payload 1] /\
  forall c,
    In c (bufferRef (run twoStarts (useAudioBuffer 30))) -> 0 < size (blob c).
Proof.
  assert (H1 : forall c, In c (bufferRef (useAudioBuffer 30)) ->
                         0 < size (blob c)) by (intros c []).
  assert (H2 : Forall tick_has_samples twoStarts) by (repeat constructor).
  split; [exact H1|]. split; [exact H2|]. split; [reflexivity|].
  exact (buffer_holds_no_empty_chunk _ _ H1 H2).
Defined.

(** The blob returned by an extraction is as large as the chunks it is
    made of: [triggerRecording] resolves with a blob whose size is the sum
    of the sizes of the chunks in the window, [stopRemembering] returns one
    whose size is the sum of the recorded chunks.  When no buffered chunk
    is empty, the blob of [triggerRecording] has size 0 exactly when no
    chunk lies in the window. *)
Theorem artifact_size_is_sum_of_chunks
    (state : AudioBufferState) (now : Z) (h : Hook) :
  (exists artifact,
     fst (triggerRecording state now h) = Resolved artifact /\
     size artifact = total_size (map blob (relevantChunks state now h)) /\
     ((forall c, In c (bufferRef h) -> 0 < size (blob c)) ->
      (size artifact = 0 <-> relevantChunks state now h = []))) /\
  (exists finalBlob h',
     stopRemembering state h = Normal (finalBlob, h') /\
     size finalBlob = total_size (recordedChunks state)).
Proof.
  split.
  - eexists. split; [reflexivity|]. split; [apply size_new_Blob|].
    intros Hpos. rewrite size_new_Blob.
    rewrite total_size_zero_iff.
    + split; [apply map_eq_nil|intros ->; reflexivity].
    + intros b Hb. apply in_map_iff in Hb. destruct Hb as (c & <- & Hc).
      apply Hpos. apply relevantChunks_spec in Hc. tauto.
  - eexists. eexists. split; [reflexivity|]. apply size_new_Blob.
Qed.

Lemma artifact_size_is_sum_of_chunks_witness :
  (forall c, In c (bufferRef oneOldChunk) -> 0 < size (blob c)) /\
  relevantChunks (current oneOldChunk) 100000 oneOldChunk = [] /\
  exists artifact,
    fst (triggerRecording (current oneOldChunk) 100000 oneOldChunk)
      = Resolved artifact /\ size artifact = 0.
Proof.
  assert (H1 : forall c, In c (bufferRef oneOldChunk) -> 0 < size (blob c)).
  { intros c [<-|[]]. reflexivity. }
  assert (H2 : relevantChunks (current oneOldChunk) 100000 oneOldChunk = [])
    by reflexivity.
  destruct (artifact_size_is_sum_of_chunks (current oneOldChunk) 100000
              oneOldChunk) as [(artifact & E & _ & Hzero) _].
  split; [exact H1|]. split; [exact H2|].
  exists artifact. split; [exact E|]. apply (Hzero H1). exact H2.
Defined.

Lemma filter_in_range_not_before (from to : Z) (l : list Chunk) :
  (forall c, In c l -> timestamp c <= to) ->
  filter (in_range from to) l = filter (not_before from) l.
Proof.
  intros Hle. apply filter_ext_in. intros c Hc.
  unfold in_range, not_before.
  specialize (Hle c Hc). apply Z.leb_le in Hle. rewrite Hle.
  apply andb_true_r.
Qed.

(** Starting to remember and stopping at once, from the latest render,
    returns the blob that [triggerRecording] resolves with at that
    instant, provided no buffered chunk is stamped later than [now]; the
    hook is idle again, its recorded chunks are empty and the buffer is
    untouched. *)
Theorem start_then_stop_equals_trigger
    (state : AudioBufferState) (now : Z) (h : Hook)
    (Hpast : forall c, In c (bufferRef h) -> timestamp c <= now) :
  exists snapshot h1 finalBlob h2,
    startRemembering state now h = Normal (snapshot, h1) /\
    stopRemembering (current h1) h1 = Normal (finalBlob, h2) /\
    fst (triggerRecording state now h) = Resolved finalBlob /\
    finalBlob = new_Blob snapshot webm_opus /\
    isRemembering (current h2) = false /\
    recordedChunks (current h2) = [] /\
    bufferRef h2 = bufferRef h.
Proof.
  do 4 eexists. split; [reflexivity|]. split; [reflexivity|].
  split; [|repeat split].
  unfold triggerRecording, relevantChunks. simpl.
  rewrite filter_in_range_not_before by exact Hpast. reflexivity.
Qed.

Lemma start_then_stop_equals_trigger_witness :
  (forall c, In c (bufferRef oneOldChunk) -> timestamp c <= 2000) /\
  exists snapshot h1 finalBlob h2,
    startRemembering (current oneOldChunk) 2000 oneOldChunk
      = Normal (snapshot, h1) /\
    stopRemembering (current h1) h1 = Normal (finalBlob, h2) /\
    fst (triggerRecording (current oneOldChunk) 2000 oneOldChunk)
      = Resolved finalBlob.
Proof.
  assert (H : forall c, In c (bufferRef oneOldChunk) -> timestamp c <= 2000).
  { intros c [<-|[]]. discriminate. }
  split; [exact H|].
  destruct (start_then_stop_equals_trigger (current oneOldChunk) 2000
              oneOldChunk H)
    as (snapshot & h1 & finalBlob & h2 & E1 & E2 & E3 & _).
  exists snapshot, h1, finalBlob, h2. repeat split; assumption.
Defined.

(** Two resizes in a row keep exactly the chunks that pass both cutoffs,
    so a shrink followed by a growth does not bring anything back; and a
    resize repeated at the same instant changes nothing more. *)
Theorem successive_resizes_keep_both_cutoffs (a b t1 t2 : Z) (h : Hook) :
  (forall c,
     In c (bufferRef (updateBufferSize b t2 (updateBufferSize a t1 h))) <->
     In c (bufferRef h) /\
     t1 - 1000 * clampedSize a < timestamp c /\
     t2 - 1000 * clampedSize b < timestamp c) /\
  bufferSize (current (updateBufferSize b t2 (updateBufferSize a t1 h)))
    = clampedSize b /\
  updateBufferSize a t1 (updateBufferSize a t1 h) = updateBufferSize a t1 h.
Proof.
  split; [|split; [reflexivity|]].
  - intros c. rewrite !updateBufferSize_bufferRef, !filter_In, !newer_than_spec.
    split; [intros [[H1 H2] H3]|intros (H1 & H2 & H3)]; repeat split;
      auto; lia.
  - unfold updateBufferSize, set_bufferRef, setState. simpl.
    f_equal. apply filter_all. intros c Hc. apply filter_In in Hc. tauto.
Qed.

(** With a positive window the chunk just ingested is kept, as the newest
    element of the buffer; with a window of 0 or less (the hook does not
    clamp its initial [bufferSize]) nothing survives an ingestion. *)
Theorem newest_chunk_is_last
    (state : AudioBufferState) (data : Blob) (now : Z) (h : Hook)
    (Hsize : 0 < size data) :
  (0 < bufferSize state ->
   exists older,
     bufferRef (ondataavailable state data now h) =
     older ++ [mkChunk data now]) /\
  (bufferSize state <= 0 ->
   (forall c, In c (bufferRef h) -> timestamp c <= now) ->
   bufferRef (ondataavailable state data now h) = []).
Proof.
  assert (Hon : ondataavailable state data now h = ingest state data now h).
  { unfold ondataavailable. apply Z.ltb_lt in Hsize. rewrite Hsize. reflexivity. }
  rewrite Hon, ingest_bufferRef. split.
  - intros Hw. rewrite filter_app. simpl.
    assert (E : newer_than (now - bufferSize state * 1000) (mkChunk data now)
                = true) by (apply newer_than_spec; simpl; lia).
    rewrite E. eexists. reflexivity.
  - intros Hw Hpast.
    destruct (filter _ _) as [|c l] eqn:E; [reflexivity|].
    assert (Hc : In c (filter (newer_than (now - bufferSize state * 1000))
                         (bufferRef h ++ [mkChunk data now])))
      by (rewrite E; left; reflexivity).
    apply filter_In in Hc. destruct Hc as [Hc Hn].
    apply newer_than_spec in Hn.
    apply in_app_or in Hc. destruct Hc as [Hc|[<-|[]]].
    + specialize (Hpast c Hc). nia.
    + simpl in Hn. nia.
Qed.

Lemma newest_chunk_is_last_witness :
  0 < size (payload 2) /\
  bufferSize (initialState 0) <= 0 /\
  (forall c, In c (bufferRef (useAudioBuffer 0)) -> timestamp c <= 1000) /\
  bufferRef (ondataavailable (initialState 0) (payload 2) 1000
               (useAudioBuffer 0)) = [].
Proof.
  assert (H1 : 0 < size (payload 2)) by reflexivity.
  assert (H2 : bufferSize (initialState 0) <= 0) by discriminate.
  assert (H3 : forall c, In c (bufferRef (useAudioBuffer 0)) ->
                         timestamp c <= 1000) by (intros c []).
  destruct (newest_chunk_is_last (initialState 0) (payload 2) 1000
              (useAudioBuffer 0) H1) as [_ Hzero].
  repeat (split; [assumption|]). exact (Hzero H2 H3).
Defined.

(** Ingestion never removes a recorded chunk: along any run made of
    ingestions only, the recorded chunks at the start are a prefix of the
    recorded chunks at the end. *)
Theorem recordedChunks_only_grow_with_ingestion (events : list Event)
    (h : Hook) (Hingestions : Forall is_ingestion events) :
  exists added,
    recordedChunks (current (run events h)) =
    recordedChunks (current h) ++ added.
Proof.
  revert h. induction Hingestions as [|e events He _ IH]; intros h.
  - exists []. simpl. rewrite app_nil_r. reflexivity.
  - change (run (e :: events) h) with (run events (step h e)).
    destruct (IH (step h e)) as [added Hadded]. rewrite Hadded. clear IH Hadded.
    assert (Hingest : forall h' data now,
      ingested_in h h' data now ->
      exists one, recordedChunks (current h') =
                  recordedChunks (current h) ++ one).
    { intros h' data now (state & -> & _). rewrite ingest_recordedChunks.
      destruct (isRemembering state); [exists [data]|exists []];
        [reflexivity|rewrite app_nil_r; reflexivity]. }
    assert (Hstep : exists one, recordedChunks (current (step h e)) =
                                recordedChunks (current h) ++ one).
    { assert (Hre : recordedChunks (current (step h e)) =
                    recordedChunks (current (handle h e)))
        by apply rerender_current_fields.
      rewrite Hre.
      destruct e as [data now|buffer now| | | | | | ]; simpl in He; try tauto.
      - destruct (handle_DataAvailable h data now) as [[-> _]|[_ Hin]];
          [exists []; rewrite app_nil_r; reflexivity|].
        apply (Hingest _ _ _ Hin).
      - destruct (handle_IntervalTick h buffer now) as [->|Hin];
          [exists []; rewrite app_nil_r; reflexivity|].
        apply (Hingest _ _ _ Hin). }
    destruct Hstep as [one Hone]. rewrite Hone.
    exists (one ++ added). rewrite app_assoc. reflexivity.
Qed.

Lemma recordedChunks_only_grow_with_ingestion_witness :
  Forall is_ingestion [DataAvailable (payload 11) 10510;
                       DataAvailable (payload 12) 11000] /\
  recordedChunks (current restartedWhileRemembering) = map payload (seq 1 10) /\
  recordedChunks
    (current (run [DataAvailable (payload 11) 10510;
                   DataAvailable (payload 12) 11000]
                  restartedWhileRemembering))
  = map payload (seq 1 11) /\
  exists added,
    recordedChunks
      (current (run [DataAvailable (payload 11) 10510;
                     DataAvailable (payload 12) 11000]
                    restartedWhileRemembering)) =
    recordedChunks (current restartedWhileRemembering) ++ added.
Proof.
  assert (H : Forall is_ingestion [DataAvailable (payload 11) 10510;
                                   DataAvailable (payload 12) 11000])
    by (repeat constructor).
  split; [exact H|]. split; [reflexivity|]. split; [reflexivity|].
  exact (recordedChunks_only_grow_with_ingestion _ restartedWhileRemembering H).
Defined.

(** * Further properties of the sound trigger loop *)

Lemma fold_left_add_bounds (l : list Z) (a : Z) :
  Forall (fun v => 0 <= v <= 255) l ->
  a <= fold_left Z.add l a <= a + 255 * Z.of_nat (List.length l).
Proof.
  intros H. revert a. induction H as [|v l Hv _ IH]; intros a.
  - simpl. lia.
  - simpl fold_left. specialize (IH (a + v)).
    change (List.length (v :: l)) with (S (List.length l)). lia.
Qed.

(** The volume computed from the analyser's bins (bytes, at least one) is
    a percentage: between 0 and 100. *)
Theorem volumePercent_between_0_and_100 (dataArray : list Z)
    (Hbins : dataArray <> [])
    (Hbytes : Forall (fun v => 0 <= v <= 255) dataArray) :
  (0 <= volumePercent dataArray)%Q /\ (volumePercent dataArray <= 100)%Q.
Proof.
  unfold volumePercent.
  pose proof (fold_left_add_bounds dataArray 0 Hbytes) as [Hlo Hhi].
  set (s := fold_left Z.add dataArray 0) in *.
  set (n := Z.of_nat (List.length dataArray)) in *.
  assert (Hn : 0 < n).
  { unfold n. destruct dataArray; [congruence|simpl; lia]. }
  assert (Hnq : (0 < inject_Z n)%Q).
  { change 0%Q with (inject_Z 0). rewrite <- Zlt_Qlt. exact Hn. }
  assert (Hsq : (0 <= inject_Z s)%Q).
  { change 0%Q with (inject_Z 0). rewrite <- Zle_Qle. exact Hlo. }
  split.
  - apply Qmult_le_0_compat; [|discriminate].
    apply Qdiv_nonneg; [|reflexivity].
    apply Qdiv_nonneg; assumption.
  - setoid_replace 100%Q with (1 * 100)%Q at 2 by reflexivity.
    apply Qmult_le_compat_r; [|discriminate].
    apply Qle_shift_div_r; [reflexivity|]. rewrite Qmult_1_l.
    apply Qle_shift_div_r; [exact Hnq|].
    change 255%Q with (inject_Z 255).
    rewrite <- inject_Z_mult, <- Zle_Qle. lia.
Qed.

Lemma volumePercent_between_0_and_100_witness :
  level90 <> [] /\
  Forall (fun v => 0 <= v <= 255) level90 /\
  (0 <= volumePercent level90)%Q /\ (volumePercent level90 <= 100)%Q.
Proof.
  assert (H1 : level90 <> []) by discriminate.
  assert (H2 : Forall (fun v => 0 <= v <= 255) level90).
  { unfold level90. apply Forall_app. split; apply Forall_forall;
      intros v Hv; apply repeat_spec in Hv; subst v; split; discriminate. }
  split; [exact H1|]. split; [exact H2|].
  exact (volumePercent_between_0_and_100 level90 H1 H2).
Defined.

Lemma detectSound_frame_nonverbal soundDetection soundTriggers buffering
    dataArray now d :
  (List.length (nonverbal d) <= 10)%nat ->
  (List.length (nonverbal (detectSound_frame soundDetection soundTriggers
                             buffering dataArray now d)) <= 10)%nat.
Proof.
  intros H. unfold detectSound_frame.
  destruct (fired _ _ _); [|exact H].
  destruct (0 <? _); [|exact H].
  assert (Hlog : (List.length ((volumePercent dataArray, now)
                               :: firstn 9 (nonverbal d)) <= 10)%nat).
  { cbn [Datatypes.length]. rewrite length_firstn. lia. }
  destruct buffering; exact Hlog.
Qed.

(** The log of detected sounds never holds more than ten entries, however
    long the loop runs. *)
Theorem nonverbal_log_holds_at_most_ten
    (soundDetection : SoundDetection) (soundTriggers : list string)
    (buffering analyser : bool) (frames : list (list Z * Z)) (d : Detector)
    (Hlog : (List.length (nonverbal d) <= 10)%nat) :
  (List.length (nonverbal (startSoundDetectionLoop soundDetection
                             soundTriggers buffering analyser frames d))
   <= 10)%nat.
Proof.
  unfold startSoundDetectionLoop. destruct (negb analyser); [exact Hlog|].
  revert d Hlog. induction frames as [|[dataArray now] frames IH];
    intros d Hlog; [exact Hlog|].
  simpl. destruct (negb (isActive soundDetection)); [exact Hlog|].
  apply IH. apply detectSound_frame_nonverbal. exact Hlog.
Qed.

Lemma nonverbal_log_holds_at_most_ten_witness :
  (List.length (nonverbal (idleDetector activeDetection)) <= 10)%nat /\
  (List.length (nonverbal (afterThreeLoudFrames 1700000000000)) <= 10)%nat.
Proof.
  assert (H : (List.length (nonverbal (idleDetector activeDetection))
               <= 10)%nat) by (simpl; lia).
  split; [exact H|].
  exact (nonverbal_log_holds_at_most_ten activeDetection defaultSoundTriggers
           true true (threeLoudFrames 1700000000000)
           (idleDetector activeDetection) H).
Defined.

(** The loop calls [handleManualRecord] only when the buffer is running
    and at least one sound trigger is configured: otherwise no recording
    is ever requested, however loud the frames are, and with no trigger
    configured nothing is logged either. *)
Theorem no_recording_without_buffer_or_triggers
    (soundDetection : SoundDetection) (soundTriggers : list string)
    (buffering analyser : bool) (frames : list (list Z * Z)) (d : Detector) :
  (buffering = false \/ soundTriggers = [] ->
   manualRecords (startSoundDetectionLoop soundDetection soundTriggers
                    buffering analyser frames d) = manualRecords d) /\
  (soundTriggers = [] ->
   nonverbal (startSoundDetectionLoop soundDetection soundTriggers
                buffering analyser frames d) = nonverbal d).
Proof.
  unfold startSoundDetectionLoop. destruct (negb analyser);
    [split; reflexivity|].
  revert d. induction frames as [|[dataArray now] frames IH]; intros d;
    [split; reflexivity|].
  simpl. destruct (negb (isActive soundDetection)); [split; reflexivity|].
  destruct (IH (detectSound_frame soundDetection soundTriggers buffering
                  dataArray now d)) as [IH1 IH2].
  split.
  - intros Hno. rewrite (IH1 Hno). unfold detectSound_frame.
    destruct (fired _ _ _); [|reflexivity].
    destruct Hno as [->| ->]; [|reflexivity].
    destruct (0 <? _); reflexivity.
  - intros ->. rewrite (IH2 eq_refl). unfold detectSound_frame.
    destruct (fired _ _ _); reflexivity.
Qed.

Lemma no_recording_without_buffer_or_triggers_witness :
  manualRecords (startSoundDetectionLoop activeDetection defaultSoundTriggers
                   false true (threeLoudFrames 1700000000000)
                   (idleDetector activeDetection)) = [] /\
  nonverbal (startSoundDetectionLoop activeDetection [] true true
               (threeLoudFrames 1700000000000)
               (idleDetector activeDetection)) = [].
Proof.
  destruct (no_recording_without_buffer_or_triggers activeDetection
              defaultSoundTriggers false true (threeLoudFrames 1700000000000)
              (idleDetector activeDetection)) as [H1 _].
  destruct (no_recording_without_buffer_or_triggers activeDetection
              [] true true (threeLoudFrames 1700000000000)
              (idleDetector activeDetection)) as [_ H2].
  split; [apply H1; left; reflexivity|apply H2; reflexivity].
Defined.

(** * The WAV encoder *)

Lemma byte_of_Z_value (v : Z) : Z_of_byte (byte_of_Z v) = v mod 256.
Proof.
  unfold Z_of_byte, byte_of_Z.
  pose proof (Z.mod_pos_bound v 256 eq_refl) as Hb.
  destruct (Byte.of_N (Z.to_N (v mod 256))) as [b|] eqn:E.
  - apply Byte.to_of_N in E. rewrite E. apply Z2N.id. lia.
  - apply Byte.of_N_None_iff in E. lia.
Qed.

Lemma setUint8_at (pre : list byte) (a : byte) (post : list byte) (v : Z) :
  setUint8 (pre ++ a :: post) (List.length pre) v =
  Some (pre ++ byte_of_Z v :: post).
Proof.
  induction pre as [|p pre IH]; [reflexivity|].
  simpl. rewrite IH. reflexivity.
Qed.

Lemma setUint16_at (pre : list byte) (a b : byte) (post : list byte) (v : Z) :
  setUint16 (pre ++ a :: b :: post) (List.length pre) v =
  Some (pre ++ le16 v ++ post).
Proof.
  unfold setUint16. rewrite setUint8_at. simpl andThen.
  replace (List.length pre + 1)%nat with (List.length (pre ++ [byte_of_Z v]))
    by (rewrite length_app; reflexivity).
  change (pre ++ byte_of_Z v :: b :: post)
    with (pre ++ [byte_of_Z v] ++ b :: post).
  rewrite app_assoc, setUint8_at, <- app_assoc. reflexivity.
Qed.

Lemma writeHeader_layout (tail : list byte) (length rate : Z) :
  writeHeader (repeat x00 44 ++ tail) length rate =
  Some (wav_header length rate ++ tail).
Proof.
  unfold writeHeader, setUint32, setUint16, wav_header, le32, le16, ascii_bytes.
  cbn -[byte_of_Z Z.div Z.mul Z.add]. reflexivity.
Qed.

Lemma writeSamples_layout (samples : list Q) :
  forall pre : list byte,
  writeSamples (pre ++ repeat x00 (List.length samples * 2))
               (List.length pre) samples =
  Some (pre ++ flat_map sample_bytes samples).
Proof.
  induction samples as [|x samples IH]; intros pre.
  - simpl. reflexivity.
  - cbn [writeSamples List.length Nat.mul Nat.add repeat flat_map].
    unfold setInt16. rewrite setUint16_at. cbn [andThen].
    replace (List.length pre + 2)%nat
      with (List.length (pre ++ le16 (Qtrunc (scaledSample x))))
      by (rewrite length_app; reflexivity).
    rewrite app_assoc, IH, <- app_assoc. reflexivity.
Qed.

Lemma wav_header_length (length rate : Z) :
  List.length (wav_header length rate) = 44%nat.
Proof. reflexivity. Qed.

Lemma flat_map_sample_bytes_length (samples : list Q) :
  List.length (flat_map sample_bytes samples) = (List.length samples * 2)%nat.
Proof.
  induction samples as [|x samples IH]; [reflexivity|].
  simpl. rewrite IH. reflexivity.
Qed.

Lemma audioBufferToWav_layout (buffer : AudioBuffer) :
  audioBufferToWav buffer =
  Some (mkBlob (wav_header (Z.of_nat (List.length (channelData buffer)))
                           (sampleRate buffer)
                ++ flat_map sample_bytes (channelData buffer)) "audio/wav") /\
  (forall wav, audioBufferToWav buffer = Some wav ->
     size wav = 44 + 2 * Z.of_nat (List.length (channelData buffer))).
Proof.
  assert (E : audioBufferToWav buffer =
    Some (mkBlob (wav_header (Z.of_nat (List.length (channelData buffer)))
                           (sampleRate buffer)
                ++ flat_map sample_bytes (channelData buffer)) "audio/wav")).
  { unfold audioBufferToWav. rewrite repeat_app, writeHeader_layout.
    cbn [andThen].
    pose proof (writeSamples_layout (channelData buffer)
                  (wav_header (Z.of_nat (List.length (channelData buffer)))
                              (sampleRate buffer))) as Hs.
    rewrite wav_header_length in Hs. rewrite Hs. reflexivity. }
  split; [exact E|].
  intros wav Hwav. rewrite E in Hwav.
  assert (Hwav' : wav = mkBlob
            (wav_header (Z.of_nat (List.length (channelData buffer)))
                        (sampleRate buffer)
             ++ flat_map sample_bytes (channelData buffer)) "audio/wav")
    by congruence.
  rewrite Hwav'.
  change (size (mkBlob ?l ?t)) with (Z.of_nat (List.length l)).
  rewrite length_app, wav_header_length, flat_map_sample_bytes_length. lia.
Qed.

Lemma le_value_le16 (v : Z) : le_value (le16 v) = v mod 65536.
Proof.
  unfold le_value, le16. cbn [fold_right]. rewrite !byte_of_Z_value.
  change 65536 with (256 * 256). rewrite Z.rem_mul_r by lia. lia.
Qed.

Lemma le_value_le32 (v : Z) : le_value (le32 v) = v mod 4294967296.
Proof.
  unfold le32.
  assert (Happ : forall l1 l2, List.length l1 = 2%nat ->
            le_value (l1 ++ l2) = le_value l1 + 65536 * le_value l2).
  { intros l1 l2 H. destruct l1 as [|a [|b [|c l1]]]; try discriminate.
    unfold le_value. cbn [fold_right app]. lia. }
  rewrite Happ by reflexivity. rewrite !le_value_le16.
  change 4294967296 with (65536 * 65536). rewrite (Z.rem_mul_r v) by lia. lia.
Qed.

Lemma int16_value_le16 (v : Z) :
  -32768 <= v <= 32767 -> int16_value (le16 v) = v.
Proof.
  intros Hv. unfold int16_value. rewrite le_value_le16.
  destruct (Z_lt_le_dec v 0) as [Hneg|Hpos].
  - assert (E : v mod 65536 = v + 65536).
    { symmetry. apply Z.mod_unique with (-1); lia. }
    rewrite E. destruct (v + 65536 <? 32768) eqn:C; [apply Z.ltb_lt in C; lia|lia].
  - rewrite Z.mod_small by lia.
    destruct (v <? 32768) eqn:C; [reflexivity|apply Z.ltb_ge in C; lia].
Qed.

Lemma Qgtb_true (a b : Q) : Qgtb a b = true <-> (b < a)%Q.
Proof.
  unfold Qgtb. rewrite negb_true_iff. split.
  - intros H. apply Qnot_le_lt. intros Hle. apply Qle_bool_iff in Hle. congruence.
  - intros H. destruct (Qle_bool a b) eqn:E; [|reflexivity].
    apply Qle_bool_iff in E. exfalso. apply (Qlt_not_le _ _ H E).
Qed.

Lemma Qgtb_false (a b : Q) : Qgtb a b = false <-> (a <= b)%Q.
Proof.
  unfold Qgtb. rewrite negb_false_iff. apply Qle_bool_iff.
Qed.

Lemma Qtrunc_Z (z : Z) : Qtrunc (inject_Z z) = z.
Proof.
  unfold Qtrunc. destruct (Qle_bool 0 (inject_Z z));
    [apply Qfloor_Z|apply Qceiling_Z].
Qed.

Lemma Qtrunc_mono (a b : Q) : (a <= b)%Q -> Qtrunc a <= Qtrunc b.
Proof.
  intros H. unfold Qtrunc.
  destruct (Qle_bool 0 a) eqn:Ea; destruct (Qle_bool 0 b) eqn:Eb.
  - apply Qfloor_resp_le. exact H.
  - apply Qle_bool_iff in Ea.
    assert (Hb : (0 <= b)%Q) by (apply Qle_trans with a; assumption).
    apply Qle_bool_iff in Hb. congruence.
  - apply Qle_bool_iff in Eb.
    assert (Ha : (a <= 0)%Q).
    { apply Qlt_le_weak. apply Qnot_le_lt. intros Hle.
      apply Qle_bool_iff in Hle. congruence. }
    apply Z.le_trans with 0.
    + change 0 with (Qceiling 0). apply Qceiling_resp_le. exact Ha.
    + change 0 with (Qfloor 0). apply Qfloor_resp_le. exact Eb.
  - apply Qceiling_resp_le. exact H.
Qed.

Lemma Qtrunc_close (q : Q) :
  (q - 1 < inject_Z (Qtrunc q))%Q /\ (inject_Z (Qtrunc q) < q + 1)%Q.
Proof.
  unfold Qtrunc. destruct (Qle_bool 0 q).
  - pose proof (Qfloor_le q) as H1. pose proof (Qlt_floor q) as H2.
    rewrite inject_Z_plus in H2. change (inject_Z 1) with 1%Q in H2.
    generalize dependent (inject_Z (Qfloor q)). intros f H1 H2. split; lra.
  - pose proof (Qle_ceiling q) as H1. pose proof (Qceiling_lt q) as H2.
    unfold Z.sub in H2. rewrite inject_Z_plus in H2.
    change (inject_Z (-1)) with (-1)%Q in H2.
    generalize dependent (inject_Z (Qceiling q)). intros f H1 H2.
    change (f - 1 < q)%Q in H2. split; lra.
Qed.

Lemma clamp_range (x : Q) :
  (-1 <= Qmax (-1) (Qmin 1 x))%Q /\ (Qmax (-1) (Qmin 1 x) <= 1)%Q.
Proof.
  split; [apply Q.le_max_l|].
  apply Q.max_lub; [discriminate|apply Q.le_min_l].
Qed.

Lemma clamp_mono (x y : Q) :
  (x <= y)%Q -> (Qmax (-1) (Qmin 1 x) <= Qmax (-1) (Qmin 1 y))%Q.
Proof.
  intros H. apply Q.max_le_compat_l. apply Q.min_le_compat_l. exact H.
Qed.

Lemma scaledSample_range (x : Q) :
  (-32768 <= scaledSample x)%Q /\ (scaledSample x <= 32767)%Q /\
  ((0 <= x)%Q -> (0 <= scaledSample x)%Q) /\
  ((x <= 0)%Q -> (scaledSample x <= 0)%Q).
Proof.
  unfold scaledSample.
  destruct (clamp_range x) as [Hlo Hhi].
  assert (Hpos : (0 <= x)%Q -> (0 <= Qmax (-1) (Qmin 1 x))%Q).
  { intros Hx. apply Qle_trans with (Qmin 1 x); [|apply Q.le_max_r].
    apply Q.min_glb; [discriminate|exact Hx]. }
  assert (Hneg : (x <= 0)%Q -> (Qmax (-1) (Qmin 1 x) <= 0)%Q).
  { intros Hx. apply Q.max_lub; [discriminate|].
    apply Qle_trans with x; [apply Q.le_min_r|exact Hx]. }
  generalize dependent (Qmax (-1) (Qmin 1 x)). intros s Hlo Hhi Hpos Hneg.
  destruct (Qgtb 0 s) eqn:E.
  - apply Qgtb_true in E.
    repeat split; try lra; intros Hx;
      try (specialize (Hpos Hx)); try (specialize (Hneg Hx)); lra.
  - apply Qgtb_false in E.
    repeat split; try lra; intros Hx;
      try (specialize (Hpos Hx)); try (specialize (Hneg Hx)); lra.
Qed.

Lemma scaledSample_mono (x y : Q) :
  (x <= y)%Q -> (scaledSample x <= scaledSample y)%Q.
Proof.
  intros H. pose proof (clamp_mono x y H) as Hc. unfold scaledSample.
  generalize dependent (Qmax (-1) (Qmin 1 x)). intros s.
  generalize dependent (Qmax (-1) (Qmin 1 y)). intros t Hst.
  destruct (Qgtb 0 s) eqn:Es; destruct (Qgtb 0 t) eqn:Et;
    try apply Qgtb_true in Es; try apply Qgtb_false in Es;
    try apply Qgtb_true in Et; try apply Qgtb_false in Et; lra.
Qed.

Lemma Qtrunc_scaledSample_range (x : Q) :
  -32768 <= Qtrunc (scaledSample x) <= 32767.
Proof.
  destruct (scaledSample_range x) as (Hlo & Hhi & _).
  split.
  - rewrite <- (Qtrunc_Z (-32768)). apply Qtrunc_mono. exact Hlo.
  - rewrite <- (Qtrunc_Z 32767). apply Qtrunc_mono. exact Hhi.
Qed.

Lemma int16_value_sample_bytes (x : Q) :
  int16_value (sample_bytes x) = Qtrunc (scaledSample x).
Proof.
  unfold sample_bytes. apply int16_value_le16.
  apply Qtrunc_scaledSample_range.
Qed.

(** Every sample is written as the 16-bit number obtained by clamping it
    to [-1, 1], scaling it and dropping the fraction: the two bytes read
    back, as a signed number, to a value between -32768 and 32767 that is
    less than one step away from the scaled sample, keeps its sign, and is
    32767 for every sample of 1 or more and -32768 for every sample of -1
    or less.  No sample wraps around. *)
Theorem sample_is_encoded_within_int16 (x : Q) :
  int16_value (sample_bytes x) = Qtrunc (scaledSample x) /\
  -32768 <= int16_value (sample_bytes x) <= 32767 /\
  ((1 <= x)%Q -> int16_value (sample_bytes x) = 32767) /\
  ((x <= -1)%Q -> int16_value (sample_bytes x) = -32768) /\
  ((0 <= x)%Q -> 0 <= int16_value (sample_bytes x)) /\
  ((x <= 0)%Q -> int16_value (sample_bytes x) <= 0) /\
  (scaledSample x - 1 < inject_Z (int16_value (sample_bytes x)))%Q /\
  (inject_Z (int16_value (sample_bytes x)) < scaledSample x + 1)%Q.
Proof.
  pose proof (Qtrunc_scaledSample_range x) as Hr.
  assert (E : int16_value (sample_bytes x) = Qtrunc (scaledSample x)).
  { unfold sample_bytes. apply int16_value_le16. exact Hr. }
  rewrite E. split; [reflexivity|]. split; [exact Hr|].
  destruct (scaledSample_range x) as (_ & _ & Hpos & Hneg).
  split; [|split; [|split; [|split]]].
  - intros Hx. apply Z.le_antisymm; [apply Hr|].
    apply Z.le_trans with (Qtrunc (scaledSample 1)); [vm_compute; discriminate|].
    apply Qtrunc_mono. apply scaledSample_mono. exact Hx.
  - intros Hx. apply Z.le_antisymm; [|apply Hr].
    apply Z.le_trans with (Qtrunc (scaledSample (-1))); [|vm_compute; discriminate].
    apply Qtrunc_mono. apply scaledSample_mono. exact Hx.
  - intros Hx. apply Z.le_trans with (Qtrunc (inject_Z 0));
      [rewrite Qtrunc_Z; lia|]. apply Qtrunc_mono. apply Hpos. exact Hx.
  - intros Hx. apply Z.le_trans with (Qtrunc (inject_Z 0));
      [|rewrite Qtrunc_Z; lia]. apply Qtrunc_mono. apply Hneg. exact Hx.
  - apply Qtrunc_close.
Qed.

(** The encoding of samples is monotone: a greater sample is never
    written as a smaller number. *)
Theorem louder_sample_encodes_higher (x y : Q) (Hxy : (x <= y)%Q) :
  int16_value (sample_bytes x) <= int16_value (sample_bytes y).
Proof.
  rewrite !int16_value_sample_bytes.
  apply Qtrunc_mono. apply scaledSample_mono. exact Hxy.
Qed.

Lemma sample_bytes_at (samples : list Q) :
  forall (i : nat) (x : Q),
  nth_error samples i = Some x ->
  bytes_at (i * 2) 2 (flat_map sample_bytes samples) = sample_bytes x.
Proof.
  unfold bytes_at.
  induction samples as [|s samples IH]; intros i x Hi.
  - destruct i; discriminate Hi.
  - destruct i as [|i].
    + simpl in Hi. injection Hi as <-. reflexivity.
    + simpl in Hi. cbn [flat_map Nat.mul Nat.add].
      change (sample_bytes s ++ flat_map sample_bytes samples)
        with (byte_of_Z (Qtrunc (scaledSample s))
              :: byte_of_Z (Qtrunc (scaledSample s) / 256)
              :: flat_map sample_bytes samples).
      cbn [skipn]. apply IH. exact Hi.
Qed.

(** In the file produced by [audioBufferToWav], sample [i] is found at
    offset [44 + 2 * i] and reads back as the integer part of the scaled
    sample. *)
Theorem wav_sample_reads_back (buffer : AudioBuffer) (wav : Blob)
    (i : nat) (x : Q)
    (Hwav : audioBufferToWav buffer = Some wav)
    (Hsample : nth_error (channelData buffer) i = Some x) :
  bytes_at (44 + i * 2) 2 (blob_bytes wav) = sample_bytes x /\
  int16_value (bytes_at (44 + i * 2) 2 (blob_bytes wav))
    = Qtrunc (scaledSample x) /\
  -32768 <= int16_value (bytes_at (44 + i * 2) 2 (blob_bytes wav)) <= 32767.
Proof.
  destruct (audioBufferToWav_layout buffer) as [E _].
  rewrite E in Hwav.
  assert (Hb : blob_bytes wav =
            wav_header (Z.of_nat (List.length (channelData buffer)))
                       (sampleRate buffer)
            ++ flat_map sample_bytes (channelData buffer))
    by (injection Hwav as <-; reflexivity).
  assert (Hat : bytes_at (44 + i * 2) 2 (blob_bytes wav) = sample_bytes x).
  { rewrite Hb. unfold bytes_at. rewrite skipn_app, wav_header_length.
    rewrite skipn_all2 by (rewrite wav_header_length; lia).
    replace (44 + i * 2 - 44)%nat with (i * 2)%nat by lia.
    cbn [app]. apply sample_bytes_at. exact Hsample. }
  rewrite Hat. split; [reflexivity|].
  rewrite int16_value_sample_bytes.
  split; [reflexivity|apply Qtrunc_scaledSample_range].
Qed.

(** The header written by [audioBufferToWav] agrees with the file, as
    long as the file is smaller than 4 GiB: the RIFF size is the size of
    the file minus 8, the data size is the size of the file minus the 44
    bytes of header, the format is 16-bit mono PCM with blocks of 2 bytes,
    and the rate fields hold the sample rate and twice the sample rate
    (modulo 2^32). *)
Theorem wav_header_fields_agree (buffer : AudioBuffer) (wav : Blob)
    (Hwav : audioBufferToWav buffer = Some wav)
    (Hsmall : size wav < 4294967296) :
  bytes_at 0 4 (blob_bytes wav) = ascii_bytes "RIFF" /\
  le_value (bytes_at 4 4 (blob_bytes wav)) = size wav - 8 /\
  bytes_at 8 8 (blob_bytes wav) = ascii_bytes "WAVEfmt " /\
  le_value (bytes_at 16 4 (blob_bytes wav)) = 16 /\
  le_value (bytes_at 20 2 (blob_bytes wav)) = 1 /\
  le_value (bytes_at 22 2 (blob_bytes wav)) = 1 /\
  le_value (bytes_at 24 4 (blob_bytes wav)) = sampleRate buffer mod 4294967296 /\
  le_value (bytes_at 28 4 (blob_bytes wav))
    = (sampleRate buffer * 2) mod 4294967296 /\
  le_value (bytes_at 32 2 (blob_bytes wav)) = 2 /\
  le_value (bytes_at 34 2 (blob_bytes wav)) = 16 /\
  bytes_at 36 4 (blob_bytes wav) = ascii_bytes "data" /\
  le_value (bytes_at 40 4 (blob_bytes wav)) = size wav - 44.
Proof.
  destruct (audioBufferToWav_layout buffer) as [E Hsize].
  specialize (Hsize wav Hwav). rewrite E in Hwav.
  assert (Hb : blob_bytes wav =
            wav_header (Z.of_nat (List.length (channelData buffer)))
                       (sampleRate buffer)
            ++ flat_map sample_bytes (channelData buffer))
    by (injection Hwav as <-; reflexivity).
  rewrite Hb. rewrite Hsize in Hsmall |- *.
  set (n := Z.of_nat (List.length (channelData buffer))) in *.
  set (data := flat_map sample_bytes (channelData buffer)).
  assert (Hn : 0 <= n) by (unfold n; lia).
  assert (F4 : bytes_at 4 4 (wav_header n (sampleRate buffer) ++ data)
               = le32 (36 + n * 2)) by reflexivity.
  assert (F16 : bytes_at 16 4 (wav_header n (sampleRate buffer) ++ data)
               = le32 16) by reflexivity.
  assert (F20 : bytes_at 20 2 (wav_header n (sampleRate buffer) ++ data)
               = le16 1) by reflexivity.
  assert (F22 : bytes_at 22 2 (wav_header n (sampleRate buffer) ++ data)
               = le16 1) by reflexivity.
  assert (F24 : bytes_at 24 4 (wav_header n (sampleRate buffer) ++ data)
               = le32 (sampleRate buffer)) by reflexivity.
  assert (F28 : bytes_at 28 4 (wav_header n (sampleRate buffer) ++ data)
               = le32 (sampleRate buffer * 2)) by reflexivity.
  assert (F32 : bytes_at 32 2 (wav_header n (sampleRate buffer) ++ data)
               = le16 2) by reflexivity.
  assert (F34 : bytes_at 34 2 (wav_header n (sampleRate buffer) ++ data)
               = le16 16) by reflexivity.
  assert (F40 : bytes_at 40 4 (wav_header n (sampleRate buffer) ++ data)
               = le32 (n * 2)) by reflexivity.
  rewrite F4, F16, F20, F22, F24, F28, F32, F34, F40.
  rewrite !le_value_le32, !le_value_le16.
  repeat split; try reflexivity.
  - rewrite Z.mod_small by lia. lia.
  - rewrite Z.mod_small by lia. lia.
Qed.

(** [audioBufferToWav] never writes outside its buffer: it always returns
    a blob, of type audio/wav, made of the 44 bytes of header followed by
    two bytes per sample, in order. *)
Theorem audioBufferToWav_writes_header_then_samples (buffer : AudioBuffer) :
  exists wav,
    audioBufferToWav buffer = Some wav /\
    blob_bytes wav =
      wav_header (Z.of_nat (List.length (channelData buffer)))
                 (sampleRate buffer)
      ++ flat_map sample_bytes (channelData buffer) /\
    blob_type wav = "audio/wav"%string /\
    size wav = 44 + 2 * Z.of_nat (List.length (channelData buffer)).
Proof.
  destruct (audioBufferToWav_layout buffer) as [E Hsize].
  eexists. split; [exact E|]. split; [reflexivity|]. split; [reflexivity|].
  apply Hsize. exact E.
Qed.

Lemma sample_is_encoded_within_int16_witness :
  (1 <= 3 # 2)%Q /\ int16_value (sample_bytes (3 # 2)) = 32767.
Proof.
  destruct (sample_is_encoded_within_int16 (3 # 2)) as (_ & _ & Hone & _).
  assert (H : (1 <= 3 # 2)%Q) by discriminate.
  split; [exact H|]. exact (Hone H).
Defined.

Lemma louder_sample_encodes_higher_witness :
  (-1 # 2 <= 1 # 3)%Q /\
  int16_value (sample_bytes (-1 # 2)) <= int16_value (sample_bytes (1 # 3)).
Proof.
  assert (H : (-1 # 2 <= 1 # 3)%Q) by discriminate.
  split; [exact H|]. exact (louder_sample_encodes_higher (-1 # 2) (1 # 3) H).
Defined.

Lemma wav_sample_reads_back_witness :
  exists wav,
    audioBufferToWav fiveSamples = Some wav /\
    nth_error (channelData fiveSamples) 2 = Some (-1 # 2)%Q /\
    int16_value (bytes_at (44 + 2 * 2) 2 (blob_bytes wav))
      = Qtrunc (scaledSample (-1 # 2)).
Proof.
  pose proof (proj1 (audioBufferToWav_layout fiveSamples)) as Hwav.
  assert (Hs : nth_error (channelData fiveSamples) 2 = Some (-1 # 2)%Q)
    by reflexivity.
  eexists. split; [exact Hwav|]. split; [exact Hs|].
  destruct (wav_sample_reads_back fiveSamples _ 2 (-1 # 2) Hwav Hs)
    as (_ & H & _).
  exact H.
Defined.

Lemma wav_header_fields_agree_witness :
  exists wav,
    audioBufferToWav fiveSamples = Some wav /\
    size wav < 4294967296 /\
    le_value (bytes_at 4 4 (blob_bytes wav)) = size wav - 8 /\
    le_value (bytes_at 40 4 (blob_bytes wav)) = size wav - 44.
Proof.
  destruct (audioBufferToWav_layout fiveSamples) as [Hwav Hsize].
  specialize (Hsize _ Hwav).
  assert (Hsmall : size (mkBlob
            (wav_header (Z.of_nat (List.length (channelData fiveSamples)))
                        (sampleRate fiveSamples)
             ++ flat_map sample_bytes (channelData fiveSamples)) "audio/wav")
          < 4294967296) by (rewrite Hsize; reflexivity).
  eexists. split; [exact Hwav|]. split; [exact Hsmall|].
  destruct (wav_header_fields_agree fiveSamples _ Hwav Hsmall)
    as (_ & H4 & _ & _ & _ & _ & _ & _ & _ & _ & _ & H40).
  split; assumption.
Defined.

(** * The audio inspector *)

(** With an audio element loaded and a duration that is not negative, a
    seek always lands inside the recording: at the requested time when it
    lies between 0 and the duration, at 0 when it is earlier, at the
    duration when it is later (so every seek lands at 0 while the duration
    is still 0).  Rewinding never moves forward and fast-forwarding never
    moves back.  Without an audio element a seek changes nothing. *)
Theorem seekAudio_stays_within_the_recording
    (currentAudio prev : Inspector.CurrentAudio) (time : Q)
    (Hduration : (0 <= Inspector.duration currentAudio)%Q) :
  (Inspector.audioElement currentAudio = false ->
   Inspector.seekAudio currentAudio time prev = prev) /\
  (Inspector.audioElement currentAudio = true ->
   (0 <= Inspector.currentTime (Inspector.seekAudio currentAudio time prev))%Q /\
   (Inspector.currentTime (Inspector.seekAudio currentAudio time prev)
      <= Inspector.duration currentAudio)%Q /\
   ((0 <= time)%Q -> (time <= Inspector.duration currentAudio)%Q ->
    (Inspector.currentTime (Inspector.seekAudio currentAudio time prev)
       == time)%Q) /\
   ((time <= 0)%Q ->
    (Inspector.currentTime (Inspector.seekAudio currentAudio time prev)
       == 0)%Q) /\
   ((Inspector.duration currentAudio <= time)%Q ->
    (Inspector.currentTime (Inspector.seekAudio currentAudio time prev)
       == Inspector.duration currentAudio)%Q) /\
   ((0 <= Inspector.currentTime currentAudio)%Q ->
    (Inspector.currentTime (Inspector.rewindAudio currentAudio prev)
       <= Inspector.currentTime currentAudio)%Q) /\
   ((Inspector.currentTime currentAudio
       <= Inspector.duration currentAudio)%Q ->
    (Inspector.currentTime currentAudio
       <= Inspector.currentTime (Inspector.fastForwardAudio currentAudio prev))%Q)).
Proof.
  split.
  - intros He. unfold Inspector.seekAudio. rewrite He. reflexivity.
  - intros He.
    assert (Hseek : forall t,
      Inspector.currentTime (Inspector.seekAudio currentAudio t prev) =
      Qmax 0 (Qmin t (Inspector.duration currentAudio))).
    { intros t. unfold Inspector.seekAudio. rewrite He. reflexivity. }
    unfold Inspector.rewindAudio, Inspector.fastForwardAudio.
    rewrite !Hseek.
    assert (Hclamp : forall t,
      (0 <= Qmax 0 (Qmin t (Inspector.duration currentAudio)))%Q /\
      (Qmax 0 (Qmin t (Inspector.duration currentAudio))
         <= Inspector.duration currentAudio)%Q /\
      ((0 <= t)%Q -> (t <= Inspector.duration currentAudio)%Q ->
       (Qmax 0 (Qmin t (Inspector.duration currentAudio)) == t)%Q) /\
      ((t <= 0)%Q ->
       (Qmax 0 (Qmin t (Inspector.duration currentAudio)) == 0)%Q) /\
      ((Inspector.duration currentAudio <= t)%Q ->
       (Qmax 0 (Qmin t (Inspector.duration currentAudio))
          == Inspector.duration currentAudio)%Q) /\
      (Qmax 0 (Qmin t (Inspector.duration currentAudio)) <= Qmax 0 t)%Q /\
      (Qmin t (Inspector.duration currentAudio)
         <= Qmax 0 (Qmin t (Inspector.duration currentAudio)))%Q).
    { intros t.
      destruct (Q.min_spec t (Inspector.duration currentAudio))
        as [[Hm1 Hm2]|[Hm1 Hm2]];
      destruct (Q.max_spec 0 (Qmin t (Inspector.duration currentAudio)))
        as [[Hx1 Hx2]|[Hx1 Hx2]];
      destruct (Q.max_spec 0 t) as [[Hy1 Hy2]|[Hy1 Hy2]];
      rewrite ?Hx2, ?Hy2, ?Hm2 in *; repeat split; intros; lra. }
    destruct (Hclamp time) as (H1 & H2 & H3 & H4 & H5 & _).
    repeat (split; [assumption|]). split.
    + intros Hc.
      destruct (Hclamp (Inspector.currentTime currentAudio - 10)%Q)
        as (_ & _ & _ & _ & _ & Hle & _).
      apply Qle_trans with (Qmax 0 (Inspector.currentTime currentAudio - 10));
        [exact Hle|].
      apply Q.max_lub; lra.
    + intros Hc.
      destruct (Hclamp (Inspector.currentTime currentAudio + 10)%Q)
        as (_ & _ & _ & _ & _ & _ & Hge).
      apply Qle_trans with
        (Qmin (Inspector.currentTime currentAudio + 10)
              (Inspector.duration currentAudio)); [|exact Hge].
      apply Q.min_glb; lra.
Qed.

Lemma seekAudio_stays_within_the_recording_witness :
  (0 <= Inspector.duration (Inspector.mkCurrentAudio None 5 3 false true))%Q /\
  (Inspector.currentTime
     (Inspector.fastForwardAudio (Inspector.mkCurrentAudio None 5 3 false true)
        (Inspector.mkCurrentAudio None 5 3 false true)) == 5)%Q /\
  (Inspector.currentTime
     (Inspector.rewindAudio (Inspector.mkCurrentAudio None 5 3 false true)
        (Inspector.mkCurrentAudio None 5 3 false true)) == 0)%Q.
Proof.
  assert (H : (0 <= Inspector.duration
                      (Inspector.mkCurrentAudio None 5 3 false true))%Q)
    by discriminate.
  destruct (seekAudio_stays_within_the_recording
              (Inspector.mkCurrentAudio None 5 3 false true)
              (Inspector.mkCurrentAudio None 5 3 false true) (3 + 10)%Q H)
    as [_ Hff].
  destruct (seekAudio_stays_within_the_recording
              (Inspector.mkCurrentAudio None 5 3 false true)
              (Inspector.mkCurrentAudio None 5 3 false true) (3 - 10)%Q H)
    as [_ Hrw].
  destruct (Hff eq_refl) as (_ & _ & _ & _ & Hend & _).
  destruct (Hrw eq_refl) as (_ & _ & _ & Hstart & _).
  split; [exact H|]. split.
  - apply Hend. discriminate.
  - apply Hstart. discriminate.
Defined.

(** * The recorder hook *)

Lemma recorder_deliver_chunks (blobs : list Blob) :
  forall h,
  Recorder.chunksRef (Recorder.deliver blobs h) =
    Recorder.chunksRef h ++ filter non_empty blobs /\
  Recorder.current (Recorder.deliver blobs h) = Recorder.current h /\
  Recorder.mimeType (Recorder.deliver blobs h) = Recorder.mimeType h.
Proof.
  unfold Recorder.deliver.
  induction blobs as [|b blobs IH]; intros h.
  - simpl. rewrite app_nil_r. repeat split.
  - simpl. destruct (IH (Recorder.ondataavailable b h)) as (H1 & H2 & H3).
    rewrite H1, H2, H3. unfold Recorder.ondataavailable, non_empty.
    destruct (0 <? size b); simpl; [|repeat split].
    rewrite <- app_assoc. repeat split.
Qed.

(** A recording is exactly what was delivered since it started: with a
    working microphone, the blob published when the recorder stops is the
    concatenation, in order, of the non-empty blobs delivered after
    [startRecording]; empty deliveries are skipped, chunks of an earlier
    recording are not included, and the hook is no longer recording. *)
Theorem recording_is_the_chunks_delivered_since_start
    (browser : Browser) (recorderType : string) (analyser : bool)
    (dataArray : list Z) (blobs : list Blob) (h : Recorder.Hook)
    (Hmic : ~ acquisition_fails browser) :
  Recorder.audioUrl (Recorder.current
    (Recorder.onstop (Recorder.deliver blobs
       (Recorder.startRecording browser recorderType analyser dataArray h))))
  = Some (new_Blob (filter non_empty blobs)
            (if String.eqb recorderType "" then "audio/wav"%string
             else recorderType)) /\
  Recorder.isRecording (Recorder.current
    (Recorder.onstop (Recorder.deliver blobs
       (Recorder.startRecording browser recorderType analyser dataArray h))))
  = false /\
  Recorder.isRecording (Recorder.current
    (Recorder.startRecording browser recorderType analyser dataArray h))
  = true.
Proof.
  assert (Hp : is_denied (permissionState browser) = false).
  { destruct (permissionState browser) eqn:Ep; try reflexivity.
    exfalso. apply Hmic. left. exact Ep. }
  assert (Hg : exists v, getUserMedia browser = Normal v).
  { destruct (getUserMedia browser) as [v|e] eqn:Eg; [exists v; reflexivity|].
    exfalso. apply Hmic. right. left. exists e. exact Eg. }
  assert (Hn : exists v, newMediaRecorder browser = Normal v).
  { destruct (newMediaRecorder browser) as [v|e] eqn:En;
      [exists v; reflexivity|].
    exfalso. apply Hmic. right. right. exists e. exact En. }
  destruct Hg as [v1 Hg]. destruct Hn as [v2 Hn].
  assert (Hstart :
    Recorder.chunksRef
      (Recorder.startRecording browser recorderType analyser dataArray h) = [] /\
    Recorder.mimeType
      (Recorder.startRecording browser recorderType analyser dataArray h)
      = recorderType /\
    Recorder.isRecording (Recorder.current
      (Recorder.startRecording browser recorderType analyser dataArray h))
      = true).
  { unfold Recorder.startRecording. rewrite Hp, Hg, Hn.
    unfold Recorder.updateWaveform. destruct (negb analyser); repeat split. }
  destruct Hstart as (Hc & Hm & Hr).
  destruct (recorder_deliver_chunks blobs
              (Recorder.startRecording browser recorderType analyser
                 dataArray h)) as (Hd1 & _ & Hd3).
  unfold Recorder.onstop. simpl. rewrite Hd1, Hd3, Hc, Hm.
  repeat split. exact Hr.
Qed.

Lemma recording_is_the_chunks_delivered_since_start_witness :
  ~ acquisition_fails microphone /\
  Recorder.audioUrl (Recorder.current
    (Recorder.onstop (Recorder.deliver
       [payload 1; mkBlob [] webm_opus; payload 2]
       (Recorder.startRecording microphone webm_opus true [255; 0]
          (Recorder.deliver [payload 9] Recorder.useAudioRecorder)))))
  = Some (new_Blob [payload 1; payload 2] webm_opus).
Proof.
  assert (Hok : ~ acquisition_fails microphone).
  { intros [H|[[e H]|[e H]]]; discriminate H. }
  split; [exact Hok|].
  destruct (recording_is_the_chunks_delivered_since_start microphone
              webm_opus true [255; 0]
              [payload 1; mkBlob [] webm_opus; payload 2]
              (Recorder.deliver [payload 9] Recorder.useAudioRecorder) Hok)
    as [H _].
  exact H.
Defined.

(** The waveform shown while recording has at most 32 levels, one per
    frequency bin read, and each level lies between 0 and 1. *)
Theorem waveform_has_at_most_32_levels_in_0_1
    (dataArray : list Z) (h : Recorder.Hook)
    (Hbytes : Forall (fun v => 0 <= v <= 255) dataArray) :
  List.length (Recorder.waveformData (Recorder.current
     (Recorder.updateWaveform true dataArray h)))
  = Nat.min 32 (List.length dataArray) /\
  Forall (fun level => (0 <= level)%Q /\ (level <= 1)%Q)
    (Recorder.waveformData (Recorder.current
       (Recorder.updateWaveform true dataArray h))).
Proof.
  assert (E : Recorder.waveformData (Recorder.current
                 (Recorder.updateWaveform true dataArray h)) =
               map (fun value => (inject_Z value / 255)%Q)
                   (firstn 32 dataArray)) by reflexivity.
  rewrite E. split.
  - rewrite length_map, length_firstn. reflexivity.
  - apply Forall_map. apply Forall_forall. intros v Hv.
    assert (Hv' : In v dataArray).
    { rewrite <- (firstn_skipn 32 dataArray). apply in_or_app. left. exact Hv. }
    clear Hv. rename Hv' into Hv.
    rewrite Forall_forall in Hbytes. specialize (Hbytes v Hv).
    split.
    + apply Qdiv_nonneg; [|reflexivity].
      change 0%Q with (inject_Z 0). rewrite <- Zle_Qle. lia.
    + apply Qle_shift_div_r; [reflexivity|]. rewrite Qmult_1_l.
      change 255%Q with (inject_Z 255). rewrite <- Zle_Qle. lia.
Qed.

Lemma waveform_has_at_most_32_levels_in_0_1_witness :
  Forall (fun v => 0 <= v <= 255) level80 /\
  List.length (Recorder.waveformData (Recorder.current
     (Recorder.updateWaveform true level80 Recorder.useAudioRecorder)))
  = 32%nat.
Proof.
  assert (H : Forall (fun v => 0 <= v <= 255) level80).
  { apply Forall_forall. intros v Hv. apply repeat_spec in Hv. subst v.
    split; discriminate. }
  split; [exact H|].
  destruct (waveform_has_at_most_32_levels_in_0_1 level80
              Recorder.useAudioRecorder H) as [Hl _].
  exact Hl.
Defined.

(** When the microphone cannot be acquired, [startRecording] shows one
    alert and changes nothing else: the hook is not recording, and the
    chunks and the blob of an earlier recording are kept. *)
Theorem failed_startRecording_only_alerts
    (browser : Browser) (recorderType : string) (analyser : bool)
    (dataArray : list Z) (h : Recorder.Hook)
    (Hfail : acquisition_fails browser) :
  Recorder.current
    (Recorder.startRecording browser recorderType analyser dataArray h)
  = Recorder.current h /\
  Recorder.chunksRef
    (Recorder.startRecording browser recorderType analyser dataArray h)
  = Recorder.chunksRef h /\
  exists text,
    Recorder.alerts
      (Recorder.startRecording browser recorderType analyser dataArray h)
    = text :: Recorder.alerts h.
Proof.
  unfold Recorder.startRecording.
  destruct Hfail as [Hp | [[e He] | [e He]]].
  - rewrite Hp. simpl. repeat split. eexists. reflexivity.
  - rewrite He. destruct (is_denied (permissionState browser));
      simpl; repeat split; eexists; reflexivity.
  - rewrite He. destruct (is_denied (permissionState browser));
      [|destruct (getUserMedia browser)];
      simpl; repeat split; eexists; reflexivity.
Qed.

Lemma failed_startRecording_only_alerts_witness :
  acquisition_fails notAllowed /\
  Recorder.alerts
    (Recorder.startRecording notAllowed webm_opus true []
       Recorder.useAudioRecorder)
  = ["Microphone access denied. Please enable microphone permissions and try again."%string].
Proof.
  assert (H : acquisition_fails notAllowed).
  { right. left. eexists. reflexivity. }
  split; [exact H|].
  destruct (failed_startRecording_only_alerts notAllowed webm_opus true []
              Recorder.useAudioRecorder H) as (_ & _ & text & Ht).
  rewrite Ht. vm_compute in Ht. injection Ht as <-. reflexivity.
Defined.

(** * The web-mode database *)

Lemma setItem_same {Data} (key : string) (value : WebDb.Parsed Data)
    (localStorage : WebDb.Storage Data) :
  WebDb.setItem key value localStorage key = Some value.
Proof. unfold WebDb.setItem. rewrite String.eqb_refl. reflexivity. Qed.

Lemma setItem_other {Data} (key k : string) (value : WebDb.Parsed Data)
    (localStorage : WebDb.Storage Data) :
  k <> key -> WebDb.setItem key value localStorage k = localStorage k.
Proof.
  intros H. unfold WebDb.setItem.
  destruct (String.eqb k key) eqn:E; [|reflexivity].
  apply String.eqb_eq in E. contradiction.
Qed.

Lemma saveToWebDatabase_stored {Data : Type}
    (key : string) (d : Data) (now : Z) (iso : string)
    (localStorage : WebDb.Storage Data) (existing : list (WebDb.Entry Data)) :
  WebDb.parse (localStorage key) = WebDb.JArray existing ->
  forall k,
    WebDb.saveToWebDatabase key d now iso localStorage k =
    WebDb.setItem key
      (WebDb.JArray (WebDb.mkEntry d now iso :: firstn 99 existing))
      localStorage k.
Proof.
  intros Hreadable k. unfold WebDb.saveToWebDatabase. rewrite Hreadable.
  destruct (100 <? Z.of_nat (List.length (WebDb.mkEntry d now iso :: existing)))
    eqn:E.
  - reflexivity.
  - apply Z.ltb_ge in E. cbn [List.length] in E.
    rewrite (firstn_all2 (n := 99) existing) by lia. reflexivity.
Qed.

(** When the item under [key] is readable (an array, or missing), a saved
    record is stored first, before the 99 most recent earlier entries: the
    item never holds more than 100 entries, a read with a limit of at
    least 1 returns the new record first, and no other key is touched. *)
Theorem saved_record_is_read_back_first {Data : Type}
    (key : string) (d : Data) (now : Z) (iso : string) (limit : Z)
    (localStorage : WebDb.Storage Data) (existing : list (WebDb.Entry Data))
    (Hreadable : WebDb.parse (localStorage key) = WebDb.JArray existing) :
  WebDb.saveToWebDatabase key d now iso localStorage key =
    Some (WebDb.JArray (WebDb.mkEntry d now iso :: firstn 99 existing)) /\
  (List.length (WebDb.mkEntry d now iso :: firstn 99 existing) <= 100)%nat /\
  (1 <= limit ->
   exists others,
     WebDb.getFromWebDatabase key limit
       (WebDb.saveToWebDatabase key d now iso localStorage)
     = WebDb.Rows (WebDb.mkEntry d now iso :: others)) /\
  (forall k, k <> key ->
     WebDb.saveToWebDatabase key d now iso localStorage k = localStorage k).
Proof.
  pose proof (saveToWebDatabase_stored key d now iso localStorage existing
                Hreadable) as Hsave.
  split; [rewrite Hsave; apply setItem_same|].
  split; [cbn [List.length]; rewrite length_firstn; lia|].
  split.
  - intros Hlimit. unfold WebDb.getFromWebDatabase.
    rewrite Hsave, setItem_same. cbn [WebDb.parse].
    set (stored := WebDb.mkEntry d now iso :: firstn 99 existing).
    assert (Hpos : (1 <= WebDb.slice_end limit (List.length stored))%nat).
    { unfold WebDb.slice_end. destruct (limit <? 0) eqn:E;
        [apply Z.ltb_lt in E; lia|].
      unfold stored. cbn [List.length]. lia. }
    destruct (WebDb.slice_end limit (List.length stored)) as [|n]; [lia|].
    unfold stored. cbn [firstn]. eexists. reflexivity.
  - intros k Hk. rewrite Hsave. apply setItem_other. exact Hk.
Qed.

Lemma saved_record_is_read_back_first_witness :
  WebDb.parse ((fun _ => None) "audio_records"%string)
    = WebDb.JArray (@nil (WebDb.Entry string)) /\
  1 <= 50 /\
  exists others,
    WebDb.getFromWebDatabase "audio_records" 50
      (WebDb.saveToWebDatabase "audio_records" "memo"%string 1700000000000
         "2023-11-14" (fun _ => None))
    = WebDb.Rows (WebDb.mkEntry "memo"%string 1700000000000 "2023-11-14"
                  :: others).
Proof.
  assert (H1 : WebDb.parse ((fun _ : string => @None (WebDb.Parsed string))
                              "audio_records"%string)
               = WebDb.JArray (@nil (WebDb.Entry string))) by reflexivity.
  assert (H2 : 1 <= 50) by discriminate.
  destruct (saved_record_is_read_back_first "audio_records" "memo"%string
              1700000000000 "2023-11-14" 50 (fun _ => None) [] H1)
    as (_ & _ & Hread & _).
  split; [exact H1|]. split; [exact H2|]. exact (Hread H2).
Defined.

(** When the item under [key] is not an array (a text that does not parse,
    or any other JSON value), [saveToWebDatabase] stores nothing: the
    record is dropped and the storage is left as it was. *)
Theorem unreadable_item_drops_the_record {Data : Type}
    (key : string) (d : Data) (now : Z) (iso : string)
    (localStorage : WebDb.Storage Data)
    (Hunreadable : forall entries,
       WebDb.parse (localStorage key) <> WebDb.JArray entries) :
  (forall k, WebDb.saveToWebDatabase key d now iso localStorage k
             = localStorage k) /\
  (forall limit rows,
     WebDb.getFromWebDatabase key limit
       (WebDb.saveToWebDatabase key d now iso localStorage)
     = WebDb.Rows rows -> rows = []).
Proof.
  assert (Hsave : forall k, WebDb.saveToWebDatabase key d now iso localStorage k
                            = localStorage k).
  { intros k. unfold WebDb.saveToWebDatabase.
    destruct (WebDb.parse (localStorage key)) as [entries| |] eqn:E;
      try reflexivity.
    exfalso. apply (Hunreadable entries). reflexivity. }
  split; [exact Hsave|].
  intros limit rows. unfold WebDb.getFromWebDatabase. rewrite Hsave.
  destruct (WebDb.parse (localStorage key)) as [entries| |] eqn:E.
  - exfalso. apply (Hunreadable entries). reflexivity.
  - discriminate.
  - intros H. injection H as <-. reflexivity.
Qed.

Lemma unreadable_item_drops_the_record_witness :
  (forall entries : list (WebDb.Entry string),
     WebDb.parse ((fun _ => Some WebDb.JOther) "audio_records"%string)
     <> WebDb.JArray entries) /\
  WebDb.saveToWebDatabase "audio_records" "memo"%string 1700000000000
    "2023-11-14" (fun _ => Some WebDb.JOther) "audio_records"%string
  = Some WebDb.JOther.
Proof.
  assert (H : forall entries : list (WebDb.Entry string),
     WebDb.parse ((fun _ : string => Some (@WebDb.JOther string))
                    "audio_records"%string)
     <> WebDb.JArray entries) by (intros entries; discriminate).
  split; [exact H|].
  destruct (unreadable_item_drops_the_record "audio_records" "memo"%string
              1700000000000 "2023-11-14" (fun _ => Some WebDb.JOther) H)
    as [Hsave _].
  exact (Hsave "audio_records"%string).
Defined.

(** A read returns the first entries of the stored array, the most recent
    ones, never more than the limit; a missing item reads as no rows, and
    a limit of 0 returns nothing. *)
Theorem getFromWebDatabase_returns_at_most_limit {Data : Type}
    (key : string) (limit : Z) (localStorage : WebDb.Storage Data)
    (entries : list (WebDb.Entry Data))
    (Hlimit : 0 <= limit)
    (Hreadable : WebDb.parse (localStorage key) = WebDb.JArray entries) :
  exists rows later,
    WebDb.getFromWebDatabase key limit localStorage = WebDb.Rows rows /\
    entries = rows ++ later /\
    Z.of_nat (List.length rows) = Z.min limit (Z.of_nat (List.length entries)) /\
    (localStorage key = None -> rows = []).
Proof.
  unfold WebDb.getFromWebDatabase. rewrite Hreadable.
  assert (Hend : WebDb.slice_end limit (List.length entries) =
                 Z.to_nat (Z.min limit (Z.of_nat (List.length entries)))).
  { unfold WebDb.slice_end. destruct (limit <? 0) eqn:E;
      [apply Z.ltb_lt in E; lia|reflexivity]. }
  exists (firstn (WebDb.slice_end limit (List.length entries)) entries),
         (skipn (WebDb.slice_end limit (List.length entries)) entries).
  split; [reflexivity|]. split; [symmetry; apply firstn_skipn|].
  split; [rewrite length_firstn, Hend; lia|].
  intros Hnone. rewrite Hnone in Hreadable. cbn in Hreadable.
  injection Hreadable as <-. apply firstn_nil.
Qed.

Lemma getFromWebDatabase_returns_at_most_limit_witness :
  0 <= 1 /\
  exists rows later,
    WebDb.getFromWebDatabase "audio_records" 1
      (WebDb.saveToWebDatabase "audio_records" "second"%string 2 "d2"
         (WebDb.saveToWebDatabase "audio_records" "first"%string 1 "d1"
            (fun _ => None)))
    = WebDb.Rows rows /\
    [WebDb.mkEntry "second"%string 2 "d2"%string;
     WebDb.mkEntry "first"%string 1 "d1"%string] = rows ++ later /\
    Z.of_nat (List.length rows) = 1.
Proof.
  assert (H : 0 <= 1) by discriminate.
  split; [exact H|].
  destruct (getFromWebDatabase_returns_at_most_limit "audio_records" 1
              (WebDb.saveToWebDatabase "audio_records" "second"%string 2 "d2"
                 (WebDb.saveToWebDatabase "audio_records" "first"%string 1
                    "d1" (fun _ => None)))
              [WebDb.mkEntry "second"%string 2 "d2"%string;
               WebDb.mkEntry "first"%string 1 "d1"%string] H eq_refl)
    as (rows & later & H1 & H2 & H3 & _).
  exists rows, later. repeat split; assumption.
Defined.

(** In web mode, with no trigger stored yet, the component loads the four
    default triggers; once one trigger has been saved it is the only one
    loaded: the defaults are gone. *)
Theorem first_saved_trigger_replaces_the_defaults
    (triggerType triggerValue : string) (now now' : Z) (iso : string)
    (localStorage : WebDb.Storage WebDb.TriggerData)
    (prev : WebDb.Triggers)
    (Hfresh : localStorage "triggers"%string = None) :
  WebDb.loadTriggers (WebDb.getTriggers None iso localStorage) prev =
    WebDb.mkTriggers ["baby crying"%string; "gunshots"%string]
                     ["help"%string; "emergency"%string] /\
  fst (WebDb.saveTrigger None triggerType triggerValue now now' iso
         localStorage) = Normal now' /\
  WebDb.loadTriggers
    (WebDb.getTriggers None iso
       (snd (WebDb.saveTrigger None triggerType triggerValue now now' iso
               localStorage))) prev =
    WebDb.mkTriggers
      (if String.eqb triggerType "sound" then [triggerValue] else [])
      (if String.eqb triggerType "speech" then [triggerValue] else []).
Proof.
  split; [|split; [reflexivity|]].
  - unfold WebDb.getTriggers, WebDb.getFromWebDatabase. rewrite Hfresh.
    reflexivity.
  - assert (Hread : WebDb.parse (localStorage "triggers"%string)
                    = WebDb.JArray []) by (rewrite Hfresh; reflexivity).
    pose proof (saveToWebDatabase_stored "triggers"
                  (WebDb.mkTriggerData triggerType triggerValue true) now iso
                  localStorage [] Hread "triggers"%string) as Hstored.
    rewrite setItem_same, firstn_nil in Hstored.
    unfold WebDb.saveTrigger, WebDb.getTriggers, WebDb.getFromWebDatabase.
    cbn [snd]. rewrite Hstored. cbn [WebDb.parse Datatypes.length].
    change (WebDb.slice_end 100 1) with 1%nat. cbn [firstn].
    unfold WebDb.loadTriggers, WebDb.of_type.
    cbn [filter map WebDb.data WebDb.trigger_type WebDb.trigger_value].
    destruct (String.eqb triggerType "sound");
      destruct (String.eqb triggerType "speech"); reflexivity.
Qed.

Lemma first_saved_trigger_replaces_the_defaults_witness :
  (fun _ : string => @None (WebDb.Parsed WebDb.TriggerData)) "triggers"%string
    = None /\
  WebDb.loadTriggers
    (WebDb.getTriggers None "d"
       (snd (WebDb.saveTrigger None "speech" "fire" 1 2 "d" (fun _ => None))))
    (WebDb.mkTriggers [] [])
  = WebDb.mkTriggers [] ["fire"%string].
Proof.
  split; [reflexivity|].
  destruct (first_saved_trigger_replaces_the_defaults "speech" "fire" 1 2 "d"
              (fun _ => None) (WebDb.mkTriggers [] []) eq_refl)
    as (_ & _ & H).
  exact H.
Defined.

(** * The speech trigger *)

Lemma lower_idempotent (c : ascii) : Speech.lower (Speech.lower c) = Speech.lower c.
Proof. destruct c as [[] [] [] [] [] [] [] []]; reflexivity. Qed.

Lemma toLowerCase_idempotent (s : string) :
  Speech.toLowerCase (Speech.toLowerCase s) = Speech.toLowerCase s.
Proof.
  induction s as [|c s IH]; [reflexivity|].
  simpl. rewrite lower_idempotent, IH. reflexivity.
Qed.

Lemma filter_map_commute {A B} (f : A -> B) (p : B -> bool) (l : list A) :
  filter p (map f l) = map f (filter (fun a => p (f a)) l).
Proof.
  induction l as [|a l IH]; [reflexivity|].
  simpl. destruct (p (f a)); simpl; rewrite IH; reflexivity.
Qed.

(** Speech triggers are matched whatever the case of the letters: the
    case of what is heard plays no part in what the handler does, and a
    trigger matches exactly when its lower-case form does. *)
Theorem speech_matching_ignores_case
    (speechTriggers : list string) (buffering : bool) (heard : string)
    (l : Speech.Listener) :
  Speech.onresult speechTriggers buffering (Speech.toLowerCase heard) l =
    Speech.onresult speechTriggers buffering heard l /\
  Speech.matchedTriggers (map Speech.toLowerCase speechTriggers) heard =
    map Speech.toLowerCase (Speech.matchedTriggers speechTriggers heard) /\
  speech_matches (map Speech.toLowerCase speechTriggers)
                 (Speech.toLowerCase heard)
  = speech_matches speechTriggers heard.
Proof.
  assert (H1 : Speech.matchedTriggers speechTriggers (Speech.toLowerCase heard)
               = Speech.matchedTriggers speechTriggers heard).
  { unfold Speech.matchedTriggers. rewrite toLowerCase_idempotent.
    reflexivity. }
  assert (H2 : forall h,
    Speech.matchedTriggers (map Speech.toLowerCase speechTriggers) h =
    map Speech.toLowerCase (Speech.matchedTriggers speechTriggers h)).
  { intros h. unfold Speech.matchedTriggers. rewrite filter_map_commute.
    f_equal. apply filter_ext. intros t. rewrite toLowerCase_idempotent.
    reflexivity. }
  split; [|split].
  - unfold Speech.onresult. rewrite H1, toLowerCase_idempotent. reflexivity.
  - apply H2.
  - unfold speech_matches. rewrite H2, H1.
    destruct (Speech.matchedTriggers speechTriggers heard); reflexivity.
Qed.

Lemma onresult_cases speechTriggers buffering heard l :
  (speech_matches speechTriggers heard = false /\
   Speech.onresult speechTriggers buffering heard l = l) \/
  (speech_matches speechTriggers heard = true /\
   Speech.manualRecords (Speech.onresult speechTriggers buffering heard l) =
     (if buffering then S (Speech.manualRecords l)
      else Speech.manualRecords l) /\
   (List.length (Speech.transcript
      (Speech.onresult speechTriggers buffering heard l)) <= 5)%nat /\
   (List.length (Speech.nonverbal
      (Speech.onresult speechTriggers buffering heard l)) <= 10)%nat).
Proof.
  unfold speech_matches, Speech.onresult.
  destruct (Speech.matchedTriggers speechTriggers heard) as [|first rest].
  - left. split; reflexivity.
  - right. split; [reflexivity|]. split; [reflexivity|].
    cbn [Speech.transcript Speech.nonverbal Datatypes.length].
    rewrite !length_firstn. lia.
Qed.

(** The handler of the recogniser calls [handleManualRecord] only when
    the [audioBuffer.isBuffering] it is closed over is set.  Closed over a
    render that is not buffering, it never does, however many results
    match: a matching result is only logged.  Whatever the closure, a
    result that matches no trigger changes nothing, the transcript log
    keeps at most five entries and the detection log at most ten. *)
Theorem speech_results_are_logged_not_recorded
    (speechTriggers : list string) (buffering : bool)
    (results : list string) (l : Speech.Listener)
    (Htranscript : (List.length (Speech.transcript l) <= 5)%nat)
    (Hnonverbal : (List.length (Speech.nonverbal l) <= 10)%nat) :
  Speech.manualRecords (Speech.listen speechTriggers false results l) =
    Speech.manualRecords l /\
  (Forall (fun heard => speech_matches speechTriggers heard = false) results ->
   Speech.listen speechTriggers buffering results l = l) /\
  (List.length (Speech.transcript
     (Speech.listen speechTriggers buffering results l)) <= 5)%nat /\
  (List.length (Speech.nonverbal
     (Speech.listen speechTriggers buffering results l)) <= 10)%nat.
Proof.
  unfold Speech.listen. revert l Htranscript Hnonverbal.
  induction results as [|heard results IH]; intros l Ht Hn.
  - simpl. repeat split; try assumption.
  - cbn [fold_left].
    assert (Hrec : Speech.manualRecords
                     (Speech.onresult speechTriggers false heard l) =
                   Speech.manualRecords l).
    { destruct (onresult_cases speechTriggers false heard l)
        as [[_ ->]|(_ & -> & _)]; reflexivity. }
    assert (Hlogs : (List.length (Speech.transcript
                       (Speech.onresult speechTriggers false heard l)) <= 5)%nat
                    /\ (List.length (Speech.nonverbal
                       (Speech.onresult speechTriggers false heard l)) <= 10)%nat).
    { destruct (onresult_cases speechTriggers false heard l)
        as [[_ ->]|(_ & _ & H1 & H2)]; split; assumption. }
    destruct Hlogs as [Ht0 Hn0].
    destruct (IH (Speech.onresult speechTriggers false heard l) Ht0 Hn0)
      as (I1 & _ & _ & _).
    split; [rewrite I1; exact Hrec|].
    destruct (onresult_cases speechTriggers buffering heard l)
      as [[Hm Hsame]|(Hm & _ & Ht' & Hn')].
    + rewrite Hsame. destruct (IH l Ht Hn) as (_ & I2 & I3 & I4).
      split; [|split; assumption].
      intros Hall. apply I2. inversion Hall; assumption.
    + destruct (IH (Speech.onresult speechTriggers buffering heard l) Ht' Hn')
        as (_ & _ & I3 & I4).
      split; [|split; assumption].
      intros Hall. inversion Hall as [|x xs Hx Hxs]; subst. congruence.
Qed.

Lemma speech_results_are_logged_not_recorded_witness :
  (List.length (Speech.transcript (Speech.mkListener [] [] 0)) <= 5)%nat /\
  (List.length (Speech.nonverbal (Speech.mkListener [] [] 0)) <= 10)%nat /\
  Speech.listen ["help"%string; "emergency"%string] false
    ["HELP me"%string; "nothing here"%string; "please help"%string]
    (Speech.mkListener [] [] 0)
  = Speech.mkListener ["please help"%string; "help me"%string]
                      ["help"%string; "help"%string] 0 /\
  Speech.manualRecords
    (Speech.listen ["help"%string; "emergency"%string] false
       ["HELP me"%string; "nothing here"%string; "please help"%string]
       (Speech.mkListener [] [] 0)) = 0%nat.
Proof.
  assert (H1 : (List.length (Speech.transcript (Speech.mkListener [] [] 0))
                <= 5)%nat) by (simpl; lia).
  assert (H2 : (List.length (Speech.nonverbal (Speech.mkListener [] [] 0))
                <= 10)%nat) by (simpl; lia).
  destruct (speech_results_are_logged_not_recorded
              ["help"%string; "emergency"%string] false
              ["HELP me"%string; "nothing here"%string; "please help"%string]
              (Speech.mkListener [] [] 0) H1 H2) as (H & _).
  split; [exact H1|]. split; [exact H2|]. split; [reflexivity|]. exact H.
Defined.
